(** * edx-enterprise: LMS / catalog API clients and the learner-data transmitter

    A shallow embedding of
    - [enterprise/api_client/lms.py] ([JwtLmsApiClient], [EnrollmentApiClient],
      [CourseApiClient]),
    - [enterprise/api_client/enterprise_catalog.py]
      ([EnterpriseCatalogApiClient.refresh_catalogs]),
    - [integrated_channels/integrated_channel/transmitters/learner_data.py]
      ([LearnerTransmitter]).

    Python methods become computations in a state-and-exception monad: the
    state holds the object the method mutates, the outside world the method
    talks to (clock, remote service, audit table) and a trace of the calls it
    makes; a raised exception is the [Raise] result. *)

From Stdlib Require Import ZArith String List Permutation Lia.
From Stdlib Require Import DecimalString DecimalPos DecimalZ.
From stdpp Require Import base option list sorting gmap strings fin_maps.

Local Open Scope string_scope.
Local Open Scope list_scope.

(** ** Exceptions and the monad *)

(** The exception classes the three files raise or catch.  [HttpNotFoundError]
    is slumber's subclass of [SlumberBaseException]; [OtherException] stands
    for any exception class that none of the handlers below names. *)
Inductive exn : Type :=
| ClientError (message : string) (status_code : Z)
| NotConnectedToOpenEdX (message : string)
| SlumberBaseException
| HttpNotFoundError
| ConnectionError
| Timeout
| AttributeError (name : string)
| KeyError (key : string)
| TypeError
| OtherException (name : string).

Inductive result (A : Type) : Type :=
| Ok (a : A)
| Raise (e : exn).
Arguments Ok {A} a.
Arguments Raise {A} e.

Definition M (S A : Type) : Type := S -> result A * S.

Definition ret {S A} (a : A) : M S A := fun s => (Ok a, s).

Definition raise {S A} (e : exn) : M S A := fun s => (Raise e, s).

Definition bind {S A B} (c : M S A) (k : A -> M S B) : M S B :=
  fun s => match c s with
           | (Ok a, s') => k a s'
           | (Raise e, s') => (Raise e, s')
           end.

Definition get {S} : M S S := fun s => (Ok s, s).

Definition modify {S} (f : S -> S) : M S unit := fun s => (Ok tt, f s).

(** [try: c except handles => h]: run [c]; an exception [e] with
    [handles e = true] is handed to [h e], any other propagates. *)
Definition try_except {S A} (c : M S A) (handles : exn -> bool)
    (h : exn -> M S A) : M S A :=
  fun s => match c s with
           | (Ok a, s') => (Ok a, s')
           | (Raise e, s') => if handles e then h e s' else (Raise e, s')
           end.

Notation "x <~ c ;; k" := (bind c (fun x => k))
  (at level 60, c at next level, right associativity).
Notation "c ;;; k" := (bind c (fun _ => k))
  (at level 60, right associativity).

(** [except (SlumberBaseException, ConnectionError, Timeout)] *)
Definition is_transport_error (e : exn) : bool :=
  match e with
  | SlumberBaseException | HttpNotFoundError | ConnectionError | Timeout => true
  | _ => false
  end.

(** [except ClientError] *)
Definition is_ClientError (e : exn) : bool :=
  match e with ClientError _ _ => true | _ => false end.

(** Python's [str] on an [int]. *)
Definition str (code : Z) : string := NilZero.string_of_int (Z.to_int code).

(** ** JSON-shaped values the REST clients hand back *)

(** A course-mode dictionary; [mode['slug']] is [mode !! "slug"]. *)
Abbreviation mode := (gmap string string).

(** A value stored under a key of a response dictionary: a scalar, or the list
    of course-mode dictionaries found under ['course_modes']. *)
Inductive field : Type :=
| FText (s : string)
| FModes (ms : list mode).

Abbreviation response := (gmap string field).

(** ** The platform the API clients run on *)

(** [EdxRestApiClient(base_url, append_slash=..., jwt=...)] *)
Record EdxRestApiClient : Type := mkRest {
  base_url : string;
  append_slash : bool;
  jwt : option string
}.

(** A call through a slumber resource: the verb and the resource path. *)
Inductive request : Type :=
| GET (resource : list string)
| POST (resource : list string).

Inductive api_event : Type :=
| EvCreateJwt (user : string) (now : Z)
| EvRequest (via : EdxRestApiClient) (rq : request)
| EvLogException (what : string) (subject : string) (e : exn).

(** Everything the two client modules import: the JWT builder of the host
    platform ([None] when the import fails), the clock ([time n] is
    [int(time())] at the n-th reading), the service behind the REST client
    (one request, its outcome, the service afterwards) and the constants of
    [django.conf.settings] and [enterprise.constants]. *)
Class Platform : Type := {
  JwtBuilder : option (string -> string);
  time : nat -> Z;
  service : Type;
  send : service -> EdxRestApiClient -> request -> result response * service;
  OAUTH_ID_TOKEN_EXPIRATION : Z;
  LMS_INTERNAL_ROOT_URL : string;
  ENTERPRISE_ENROLLMENT_API_URL : string;
  ENTERPRISE_CATALOG_INTERNAL_ROOT_URL : string;
  COURSE_MODE_SORT_ORDER : list string;
  EXCLUDED_COURSE_MODES : list string
}.

(** What a method runs against: the instance [self], the number of clock
    readings made so far, the remote service, and the trace. *)
Record state `{Platform} (C : Type) : Type := mkState {
  self : C;
  ticks : nat;
  remote : service;
  trace : list api_event
}.
Arguments mkState {_ C} _ _ _ _.
Arguments self {_ C} _.
Arguments ticks {_ C} _.
Arguments remote {_ C} _.
Arguments trace {_ C} _.

Section Runtime.
Context `{Platform} {C : Type}.

Definition emit (ev : api_event) : M (state C) unit :=
  modify (fun st => mkState (self st) (ticks st) (remote st) (trace st ++ [ev])).

(** [int(time())] *)
Definition read_clock : M (state C) Z :=
  fun st => (Ok (time (ticks st)),
             mkState (self st) (S (ticks st)) (remote st) (trace st)).

Definition get_self : M (state C) C := fun st => (Ok (self st), st).

Definition set_self (c : C) : M (state C) unit :=
  modify (fun st => mkState c (ticks st) (remote st) (trace st)).

(** One call through a slumber resource of [via]. *)
Definition http (via : EdxRestApiClient) (rq : request) : M (state C) response :=
  fun st =>
    let '(r, net) := send (remote st) via rq in
    (r, mkState (self st) (ticks st) net (trace st ++ [EvRequest via rq])).

(** [self.client.<name>]: attribute access on [None] raises. *)
Definition resource_of (c : option EdxRestApiClient) (name : string)
  : M (state C) EdxRestApiClient :=
  match c with
  | Some via => ret via
  | None => raise (AttributeError name)
  end.

(** [d[key]] on a dictionary. *)
Definition item {V} (d : gmap string V) (key : string) : M (state C) V :=
  match d !! key with
  | Some v => ret v
  | None => raise (KeyError key)
  end.

End Runtime.

(** ** enterprise/api_client/lms.py *)

Module JwtLmsApiClient.

(** Fields of an instance; [API_BASE_URL] and [APPEND_SLASH] are the class
    attributes the instance's class gives them. *)
Record t : Type := mk {
  API_BASE_URL : string;
  APPEND_SLASH : bool;
  user : string;
  expires_in : Z;
  expires_at : Z;
  client : option EdxRestApiClient
}.

Section Methods.
Context `{Platform}.

(** [__init__] *)
Definition init (url : string) (slash : bool) (user : string) (expires_in : Z) : t :=
  mk url slash user expires_in 0 None.

(** [connect] *)
Definition connect : M (state t) unit :=
  match JwtBuilder with
  | None =>
      raise (NotConnectedToOpenEdX
               "This package must be installed in an OpenEdX environment.")
  | Some create_jwt_for_user =>
      now <~ read_clock ;;
      me <~ get_self ;;
      emit (EvCreateJwt (user me) now) ;;;
      let jwt := create_jwt_for_user (user me) in
      set_self (mk (API_BASE_URL me) (APPEND_SLASH me) (user me) (expires_in me)
                   (now + expires_in me)
                   (Some (mkRest (API_BASE_URL me) (APPEND_SLASH me) (Some jwt))))
  end.

(** [token_expired] *)
Definition token_expired : M (state t) bool :=
  now <~ read_clock ;;
  me <~ get_self ;;
  ret (expires_at me <? now)%Z.

(** [refresh_token]: the decorator; [func] is the wrapped method already
    applied to its arguments. *)
Definition refresh_token {A} (func : M (state t) A) : M (state t) A :=
  expired <~ token_expired ;;
  (if expired : bool then connect else ret tt) ;;;
  func.

End Methods.
End JwtLmsApiClient.

(** ** Python built-ins used by the clients *)

Section Builtins.
Context {S A B : Type}.

(** [[f(x) for x in xs]]: the first exception ends the comprehension. *)
Fixpoint for_each (f : A -> M S B) (xs : list A) : M S (list B) :=
  match xs with
  | [] => ret []
  | x :: xs' => y <~ f x ;; ys <~ for_each f xs' ;; ret (y :: ys)
  end.

(** [[x for x in xs if p(x)]] *)
Fixpoint keep_if (p : A -> M S bool) (xs : list A) : M S (list A) :=
  match xs with
  | [] => ret []
  | x :: xs' =>
      b <~ p x ;; ys <~ keep_if p xs' ;; ret (if b : bool then x :: ys else ys)
  end.

(** Insertion of a keyed element below the elements of larger key and above
    those of equal or smaller key. *)
Fixpoint insert_reverse (k : Z) (x : A) (l : list (Z * A)) : list (Z * A) :=
  match l with
  | [] => [(k, x)]
  | (k', y) :: l' =>
      if (k <? k')%Z then (k', y) :: insert_reverse k x l' else (k, x) :: l
  end.

Definition sort_keyed (keyed : list (Z * A)) : list (Z * A) :=
  foldr (fun kx acc => insert_reverse kx.1 kx.2 acc) [] keyed.

(** [sorted(xs, key=..., reverse=True)] once the keys are computed: larger
    keys first, elements of equal key in their original order. *)
Definition sorted_reverse (keyed : list (Z * A)) : list A :=
  (sort_keyed keyed).*2.

End Builtins.

(** [x in xs] on a list of strings. *)
Definition contains (x : string) (xs : list string) : bool :=
  existsb (String.eqb x) xs.

(** [xs.index(x)]: the first position of [x]. *)
Fixpoint index (x : string) (xs : list string) : option nat :=
  match xs with
  | [] => None
  | y :: xs' => if String.eqb x y then Some 0%nat else S <$> index x xs'
  end.

Module EnrollmentApiClient.
Import JwtLmsApiClient.

Section Methods.
Context `{Platform}.

(** [__init__]: [API_BASE_URL = settings.ENTERPRISE_ENROLLMENT_API_URL],
    [APPEND_SLASH] inherited, [user] the given or the worker user. *)
Definition init (user : string) : t :=
  JwtLmsApiClient.init ENTERPRISE_ENROLLMENT_API_URL false user
    OAUTH_ID_TOKEN_EXPIRATION.

(** [get_course_details] *)
Definition get_course_details (course_id : string) : M (state t) response :=
  refresh_token
    (try_except
       (me <~ get_self ;;
        via <~ resource_of (client me) "course" ;;
        http via (GET ["course"; course_id]))
       is_transport_error
       (fun exc =>
          emit (EvLogException
                  "Failed to retrieve course enrollment details for course"
                  course_id exc) ;;;
          ret ∅)).

(** [slug_weight], the key function local to [_sort_course_modes] *)
Definition slug_weight {C} (mode : mode) : M (state C) Z :=
  let sorting_slugs := COURSE_MODE_SORT_ORDER in
  let sorting_slugs_size := length sorting_slugs in
  slug <~ item mode "slug" ;;
  if contains slug sorting_slugs then
    match index slug sorting_slugs with
    | Some i => ret (Z.of_nat sorting_slugs_size - Z.of_nat i)%Z
    | None => raise (OtherException "ValueError")
    end
  else ret 0%Z.

(** [_sort_course_modes] *)
Definition _sort_course_modes {C} (modes : list mode) : M (state C) (list mode) :=
  keyed <~ for_each (fun mode => w <~ slug_weight mode ;; ret (w, mode)) modes ;;
  ret (sorted_reverse keyed).

(** [details.get('course_modes', [])], ready for iteration: iterating a
    non-empty string yields strings, on which [mode['slug']] is a
    [TypeError]. *)
Definition course_modes_of {C} (details : response) : M (state C) (list mode) :=
  match details !! "course_modes" with
  | None => ret []
  | Some (FModes ms) => ret ms
  | Some (FText s) => if String.eqb s "" then ret [] else raise TypeError
  end.

(** [get_course_modes] *)
Definition get_course_modes (course_id : string) : M (state t) (list mode) :=
  refresh_token
    (details <~ get_course_details course_id ;;
     modes <~ course_modes_of details ;;
     kept <~ keep_if
               (fun mode =>
                  slug <~ item mode "slug" ;;
                  ret (negb (contains slug EXCLUDED_COURSE_MODES)))
               modes ;;
     _sort_course_modes kept).

End Methods.
End EnrollmentApiClient.

Module CourseApiClient.

(** [NoAuthenticationLmsApiClient]: the one field [client]. *)
Record t : Type := mk { client : EdxRestApiClient }.

Section Methods.
Context `{Platform}.

(** [__init__] with [API_BASE_URL = settings.LMS_INTERNAL_ROOT_URL +
    '/api/courses/v1/'] and [APPEND_SLASH = True]. *)
Definition init : t :=
  mk (mkRest (LMS_INTERNAL_ROOT_URL ++ "/api/courses/v1/") true None).

(** [get_course_details] *)
Definition get_course_details (course_id : string)
  : M (state t) (option response) :=
  try_except
    (me <~ get_self ;;
     r <~ http (client me) (GET ["courses"; course_id]) ;;
     ret (Some r))
    is_transport_error
    (fun exc =>
       emit (EvLogException "Details not found for course" course_id exc) ;;;
       ret None).

End Methods.
End CourseApiClient.

(** ** enterprise/api_client/enterprise_catalog.py *)

Module EnterpriseCatalogApiClient.
Import JwtLmsApiClient.

(** An [EnterpriseCustomerCatalog] row, as far as the client reads it. *)
Record EnterpriseCustomerCatalog : Type := mkCatalog {
  uuid : string;
  title : string
}.

Definition ENTERPRISE_CATALOG_ENDPOINT : string := "enterprise-catalogs".

(** [REFRESH_CATALOG_ENDPOINT.format(catalog_uuid)] *)
Definition REFRESH_CATALOG_ENDPOINT (catalog_uuid : string) : string :=
  ENTERPRISE_CATALOG_ENDPOINT ++ "/" ++ catalog_uuid ++ "/refresh_metadata".

Section Methods.
Context `{Platform}.

(** [__init__] *)
Definition init (user : string) : t :=
  JwtLmsApiClient.init (ENTERPRISE_CATALOG_INTERNAL_ROOT_URL ++ "/api/v1/") true
    user OAUTH_ID_TOKEN_EXPIRATION.

(** The body of the [for] loop of [refresh_catalogs], on the two
    accumulators. *)
Definition refresh_one (enterprise_customer_catalog : EnterpriseCustomerCatalog)
    (acc : gmap string field * list string)
  : M (state t) (gmap string field * list string) :=
  let '(refreshed_catalogs, failed_to_refresh_catalogs) := acc in
  let catalog_uuid := uuid enterprise_customer_catalog in
  me <~ get_self ;;
  endpoint <~ resource_of (client me) (REFRESH_CATALOG_ENDPOINT catalog_uuid) ;;
  try_except
    (response <~ http endpoint (POST [REFRESH_CATALOG_ENDPOINT catalog_uuid]) ;;
     task <~ item response "async_task_id" ;;
     ret (<[catalog_uuid := task]> refreshed_catalogs, failed_to_refresh_catalogs))
    is_transport_error
    (fun exc =>
       emit (EvLogException "Failed to refresh catalog data for catalog"
               catalog_uuid exc) ;;;
       ret (refreshed_catalogs, failed_to_refresh_catalogs ++ [catalog_uuid])).

Fixpoint refresh_loop (enterprise_catalogs : list EnterpriseCustomerCatalog)
    (acc : gmap string field * list string)
  : M (state t) (gmap string field * list string) :=
  match enterprise_catalogs with
  | [] => ret acc
  | c :: rest => acc' <~ refresh_one c acc ;; refresh_loop rest acc'
  end.

(** [refresh_catalogs] *)
Definition refresh_catalogs (enterprise_catalogs : list EnterpriseCustomerCatalog)
  : M (state t) (gmap string field * list string) :=
  refresh_token (refresh_loop enterprise_catalogs (∅, [])).

End Methods.
End EnterpriseCatalogApiClient.

(** ** integrated_channels/integrated_channel/transmitters/learner_data.py *)

Module LearnerTransmitter.

(** A learner-data record the exporter yields: an unsaved row of the
    [TransmissionAudit] model.  [attrs] holds the attributes that name the
    learner on the remote side (the one [kwargs['remote_user_id']] selects). *)
Record LearnerData : Type := mkLearnerData {
  enterprise_course_enrollment_id : Z;
  course_id : string;
  course_completed : bool;
  grade : option string;
  subsection_id : option string;
  attrs : gmap string string;
  status : string;
  error_message : string
}.

(** The keyword arguments the methods read. *)
Record kwargs : Type := mkKwargs {
  remote_user_id : option string;
  learner_to_transmit : option Z
}.

Inductive operation : Type :=
| create_course_completion_op
| create_assessment_reporting_op.

Inductive info : Type :=
| Started
| SkippingInProgress
| SkippingPreviouslySent
| SuccessfullySent.

Inductive failure : Type :=
| FailedToSend (message : string) (status_code : Z)
| FailedWithException (operation_name : string).

Inductive event : Type :=
| EvSerialize (learner_data : LearnerData)
| EvIsAlreadyTransmitted (enrollment_id : Z) (grade subsection_id : option string)
    (answer : bool)
| EvClient (op : operation) (learner_data : LearnerData)
    (remote_user : string) (payload : string)
| EvLogInfo (what : info) (lms_user_id : option Z) (learner_data : LearnerData)
| EvLogException (what : failure) (lms_user_id : option Z)
    (learner_data : LearnerData)
| EvSave (learner_data : LearnerData).

(** What the transmitter is configured with and talks to: the table of the
    [TransmissionAudit] model with [integrated_channels.utils.is_already_transmitted]
    and the model's [save] on it, [LearnerExporterUtility]'s user lookup, the
    channel's API client (a call, its outcome, the client afterwards) and the
    record's [serialize]. *)
Class Channel : Type := {
  audit : Type;
  is_already_transmitted : audit -> Z -> option string -> option string -> bool;
  save : LearnerData -> audit -> audit;
  lms_user_id_for_ent_course_enrollment_id : Z -> option Z;
  partner : Type;
  create_course_completion :
    partner -> string -> string -> result (Z * string) * partner;
  create_assessment_reporting :
    partner -> string -> string -> result (Z * string) * partner;
  serialize : LearnerData -> string
}.

Record world `{Channel} : Type := mkWorld {
  db : audit;
  api : partner;
  log : list event
}.

(** The exporter, by the records each of its generators yields.  [export]
    and [single_assessment_level_export] are called with the keyword
    arguments, to which the method has added the [TransmissionAudit] model:
    they get the keyword arguments and the table of that model as the call
    finds it, and give the records the loop goes through, in order.
    [bulk_assessment_level_export] is called without arguments. *)
Record Exporter `{Channel} : Type := mkExporter {
  export : kwargs -> audit -> list LearnerData;
  bulk_assessment_level_export : list LearnerData;
  single_assessment_level_export : kwargs -> audit -> list LearnerData
}.

Section Methods.
Context `{Channel}.

Definition emit (ev : event) : M world unit :=
  modify (fun w => mkWorld _ (db w) (api w) (log w ++ [ev])).

(** [learner_data.serialize(enterprise_configuration=...)] *)
Definition do_serialize (learner_data : LearnerData) : M world string :=
  emit (EvSerialize learner_data) ;;; ret (serialize learner_data).

(** [is_already_transmitted(TransmissionAudit, enrollment_id, grade, subsection_id)] *)
Definition already_transmitted (enrollment_id : Z) (grade subsection_id : option string)
  : M world bool :=
  w <~ get ;;
  let answer := is_already_transmitted (db w) enrollment_id grade subsection_id in
  emit (EvIsAlreadyTransmitted enrollment_id grade subsection_id answer) ;;;
  ret answer.

(** [getattr(learner_data, kwargs.get('remote_user_id'))] *)
Definition getattr (learner_data : LearnerData) (name : option string)
  : M world string :=
  match name with
  | None => raise TypeError
  | Some n =>
      match attrs learner_data !! n with
      | Some v => ret v
      | None => raise (AttributeError n)
      end
  end.

(** [self.client.<op>(remote_user, serialized_payload)] *)
Definition call (op : operation) (learner_data : LearnerData)
    (remote_user payload : string) : M world (Z * string) :=
  fun w =>
    let '(r, api') :=
      match op with
      | create_course_completion_op => create_course_completion (api w) remote_user payload
      | create_assessment_reporting_op => create_assessment_reporting (api w) remote_user payload
      end in
    (r, mkWorld _ (db w) api' (log w ++ [EvClient op learner_data remote_user payload])).

(** [learner_data.save()] *)
Definition do_save (learner_data : LearnerData) : M world unit :=
  modify (fun w => mkWorld _ (save learner_data (db w)) (api w)
                     (log w ++ [EvSave learner_data])).

(** [handle_transmission_error] *)
Definition handle_transmission_error (learner_data : LearnerData)
    (message : string) (status_code : Z) (learner_id : option Z) : M world unit :=
  emit (EvLogException (FailedToSend message status_code) learner_id learner_data).

(** [_log_exception_supplemental_data] *)
Definition _log_exception_supplemental_data (learner_data : LearnerData)
    (operation_name : string) (learner_id : option Z) : M world unit :=
  emit (EvLogException (FailedWithException operation_name) learner_id learner_data).

(** The two [except] clauses every transmission shares: a [ClientError] gives
    its [status_code] and [message] as [code] and [body] after
    [handle_transmission_error]; any other exception is logged and raised
    again. *)
Definition on_exception (learner_data : LearnerData) (operation_name : string)
    (lms_user_id : option Z) (e : exn) : M world (Z * string) :=
  match e with
  | ClientError message status_code =>
      handle_transmission_error learner_data message status_code lms_user_id ;;;
      ret (status_code, message)
  | _ =>
      _log_exception_supplemental_data learner_data operation_name lms_user_id ;;;
      raise e
  end.

(** [learner_data.status = str(code)];
    [learner_data.error_message = body if code >= 400 else ''] *)
Definition with_result (learner_data : LearnerData) (code : Z) (body : string)
  : LearnerData :=
  mkLearnerData
    (enterprise_course_enrollment_id learner_data) (course_id learner_data)
    (course_completed learner_data) (grade learner_data)
    (subsection_id learner_data) (attrs learner_data)
    (str code) (if (400 <=? code)%Z then body else "").

(** The statements after the [try]: set the two fields and save.  The value is
    the record as the iteration leaves it. *)
Definition record_and_save (learner_data : LearnerData) (cb : Z * string)
  : M world LearnerData :=
  let learner_data' := with_result learner_data cb.1 cb.2 in
  do_save learner_data' ;;; ret learner_data'.

(** Body of the loop of [single_learner_assessment_grade_transmit]. *)
Definition single_learner_assessment_grade_transmit_record (kw : kwargs)
    (learner_data : LearnerData) : M world LearnerData :=
  let lms_user_id := learner_to_transmit kw in
  emit (EvLogInfo Started lms_user_id learner_data) ;;;
  serialized_payload <~ do_serialize learner_data ;;
  cb <~ try_except
          (remote_user <~ getattr learner_data (remote_user_id kw) ;;
           call create_assessment_reporting_op learner_data remote_user
             serialized_payload)
          (fun _ => true)
          (on_exception learner_data "create_assessment_reporting" lms_user_id) ;;
  record_and_save learner_data cb.

(** Body of the loop of [assessment_level_transmit]. *)
Definition assessment_level_transmit_record (kw : kwargs)
    (learner_data : LearnerData) : M world LearnerData :=
  serialized_payload <~ do_serialize learner_data ;;
  let enterprise_enrollment_id := enterprise_course_enrollment_id learner_data in
  let lms_user_id := lms_user_id_for_ent_course_enrollment_id enterprise_enrollment_id in
  sent <~ already_transmitted enterprise_enrollment_id (grade learner_data)
            (subsection_id learner_data) ;;
  if sent : bool then
    emit (EvLogInfo SkippingPreviouslySent lms_user_id learner_data) ;;;
    ret learner_data
  else
    cb <~ try_except
            (remote_user <~ getattr learner_data (remote_user_id kw) ;;
             cb <~ call create_assessment_reporting_op learner_data remote_user
                     serialized_payload ;;
             emit (EvLogInfo SuccessfullySent lms_user_id learner_data) ;;;
             ret cb)
            (fun _ => true)
            (on_exception learner_data "create_assessment_reporting" lms_user_id) ;;
    record_and_save learner_data cb.

(** Body of the loop of [transmit]. *)
Definition transmit_record (kw : kwargs) (learner_data : LearnerData)
  : M world LearnerData :=
  serialized_payload <~ do_serialize learner_data ;;
  let enterprise_enrollment_id := enterprise_course_enrollment_id learner_data in
  let lms_user_id := lms_user_id_for_ent_course_enrollment_id enterprise_enrollment_id in
  if negb (course_completed learner_data) then
    emit (EvLogInfo SkippingInProgress lms_user_id learner_data) ;;;
    ret learner_data
  else
    let grade := grade learner_data in
    sent <~ already_transmitted enterprise_enrollment_id grade None ;;
    if sent : bool then
      emit (EvLogInfo SkippingPreviouslySent lms_user_id learner_data) ;;;
      ret learner_data
    else
      cb <~ try_except
              (remote_user <~ getattr learner_data (remote_user_id kw) ;;
               cb <~ call create_course_completion_op learner_data remote_user
                       serialized_payload ;;
               if (400 <=? cb.1)%Z then
                 raise (ClientError
                          ("Client create_course_completion failed: " ++ cb.2) cb.1)
               else
                 emit (EvLogInfo SuccessfullySent lms_user_id learner_data) ;;;
                 ret cb)
              (fun _ => true)
              (on_exception learner_data "create_assessment_reporting" lms_user_id) ;;
      record_and_save learner_data cb.

(** [apps.get_model(app_label=..., model_name=...)]: the model, by its
    table. *)
Definition get_model : M world audit := w <~ get ;; ret (db w).

(** [single_learner_assessment_grade_transmit] *)
Definition single_learner_assessment_grade_transmit (exporter : Exporter)
    (kw : kwargs) : M world unit :=
  TransmissionAudit <~ get_model ;;
  for_each (single_learner_assessment_grade_transmit_record kw)
    (single_assessment_level_export exporter kw TransmissionAudit) ;;; ret tt.

(** [assessment_level_transmit] *)
Definition assessment_level_transmit (exporter : Exporter) (kw : kwargs)
  : M world unit :=
  TransmissionAudit <~ get_model ;;
  for_each (assessment_level_transmit_record kw)
    (bulk_assessment_level_export exporter) ;;; ret tt.

(** [transmit] *)
Definition transmit (payload : Exporter) (kw : kwargs) : M world unit :=
  TransmissionAudit <~ get_model ;;
  for_each (transmit_record kw) (export payload kw TransmissionAudit) ;;; ret tt.

End Methods.
End LearnerTransmitter.

(** * Vocabulary of the statements *)

(** ** States of a JWT client *)

Section JwtStates.
Context `{Platform}.
Import JwtLmsApiClient.

(** The state once the clock has been read. *)
Definition after_reading {C} (st : state C) : state C :=
  mkState (self st) (S (ticks st)) (remote st) (trace st).

(** The state [connect] leaves. *)
Definition connected (create_jwt_for_user : string -> string) (st : state t)
  : state t :=
  let me := self st in
  let now := time (ticks st) in
  mkState
    (mk (API_BASE_URL me) (APPEND_SLASH me) (user me) (expires_in me)
        (now + expires_in me)
        (Some (mkRest (API_BASE_URL me) (APPEND_SLASH me)
                 (Some (create_jwt_for_user (user me))))))
    (S (ticks st)) (remote st) (trace st ++ [EvCreateJwt (user me) now]).

(** The state in which a method wrapped by [refresh_token] starts, on a
    platform with a JWT builder. *)
Definition ready (create_jwt_for_user : string -> string) (st : state t)
  : state t :=
  if (expires_at (self st) <? time (ticks st))%Z
  then connected create_jwt_for_user (after_reading st)
  else after_reading st.

(** An instance without a REST client has an expired token: so it is after
    [__init__] on any clock past the epoch, and [connect] keeps it so. *)
Definition client_or_expired (st : state t) : Prop :=
  client (self st) = None -> (expires_at (self st) < time (ticks st))%Z.

(** The state after a request that the service answered, leaving it as [net]. *)
Definition requested {C} (st : state C) (via : EdxRestApiClient) (rq : request)
    (net : service) : state C :=
  mkState (self st) (ticks st) net (trace st ++ [EvRequest via rq]).

(** The same after the exception of the request has been logged. *)
Definition logged {C} (st : state C) (ev : api_event) : state C :=
  mkState (self st) (ticks st) (remote st) (trace st ++ [ev]).

End JwtStates.

(** ** Course modes *)

Section CourseModes.
Context `{Platform}.

(** [mode['slug']] of a dictionary that has the key. *)
Definition slug_of (m : mode) : string := default "" (m !! "slug").

Definition has_slug (m : mode) : Prop := is_Some (m !! "slug").

(** The weight [slug_weight] gives to a slug. *)
Definition weight_of (slug : string) : Z :=
  if contains slug COURSE_MODE_SORT_ORDER then
    match index slug COURSE_MODE_SORT_ORDER with
    | Some i => Z.of_nat (length COURSE_MODE_SORT_ORDER) - Z.of_nat i
    | None => 0
    end
  else 0.

Definition weight (m : mode) : Z := weight_of (slug_of m).

(** The modes [get_course_modes] keeps. *)
Definition offered (m : mode) : bool :=
  negb (contains (slug_of m) EXCLUDED_COURSE_MODES).

(** [a] comes before [b] in [l]. *)
Definition precedes {A} (l : list A) (a b : A) : Prop :=
  exists l1 l2 l3, l = l1 ++ a :: l2 ++ b :: l3.

(** Keys never increase along the list. *)
Definition descending {A} : list (Z * A) -> Prop :=
  StronglySorted (fun a b => (b.1 <= a.1)%Z).

End CourseModes.

(** ** Refreshing catalogs *)

Section Refreshing.
Context `{Platform}.
Import EnterpriseCatalogApiClient.

(** What the successive refresh POSTs for [catalogs] come to, each with the
    uuid it was for: the task id of the response, or the exception. *)
Fixpoint posts (net : service) (via : EdxRestApiClient)
    (catalogs : list EnterpriseCustomerCatalog) : list (string * result field) :=
  match catalogs with
  | [] => []
  | c :: rest =>
      let '(r, net') := send net via (POST [REFRESH_CATALOG_ENDPOINT (uuid c)]) in
      (uuid c,
       match r with
       | Ok response =>
           match response !! "async_task_id" with
           | Some task => Ok task
           | None => Raise (KeyError "async_task_id")
           end
       | Raise e => Raise e
       end) :: posts net' via rest
  end.

(** Every one of these POSTs returns a response with a task id or raises one
    of the exceptions the client catches. *)
Definition answers_refresh (outcomes : list (string * result field)) : Prop :=
  Forall (fun outcome =>
            match outcome.2 with
            | Ok _ => True
            | Raise e => is_transport_error e = true
            end) outcomes.

(** The two accumulators after such outcomes, in order. *)
Fixpoint tally (outcomes : list (string * result field))
    (acc : gmap string field * list string) : gmap string field * list string :=
  match outcomes with
  | [] => acc
  | (u, Ok task) :: rest => tally rest (<[u := task]> acc.1, acc.2)
  | (u, Raise _) :: rest => tally rest (acc.1, acc.2 ++ [u])
  end.

End Refreshing.

(** ** A platform to run the clients on *)

Module Scenario.

(** A service that answers successive requests from a script, and refuses
    the connection once the script is over. *)
Definition replay {A} (script : list (result A)) : result A * list (result A) :=
  match script with
  | [] => (Raise ConnectionError, [])
  | answer :: script' => (answer, script')
  end.

Definition platform : Platform := {|
  JwtBuilder := Some (fun user => ("jwt:" ++ user)%string);
  time := fun n => (1600000000 + Z.of_nat n)%Z;
  service := list (result response);
  send := fun script _ _ => replay script;
  OAUTH_ID_TOKEN_EXPIRATION := 3600;
  LMS_INTERNAL_ROOT_URL := "http://lms";
  ENTERPRISE_ENROLLMENT_API_URL := "http://lms/api/enrollment/v1/";
  ENTERPRISE_CATALOG_INTERNAL_ROOT_URL := "http://catalog";
  COURSE_MODE_SORT_ORDER :=
    ["verified"; "professional"; "no-id-professional"; "audit"; "honor"];
  EXCLUDED_COURSE_MODES := ["credit"]
|}.

(** The same platform in front of a refresh endpoint that hands out a task
    on every other request and times out in between; its state counts the
    requests. *)
Definition alternating : Platform := {|
  JwtBuilder := Some (fun user => ("jwt:" ++ user)%string);
  time := fun n => (1600000000 + Z.of_nat n)%Z;
  service := nat;
  send := fun n _ _ =>
            (if Nat.even n
             then Ok {[ "async_task_id" := FText (str (Z.of_nat n)) ]}
             else Raise Timeout,
             S n);
  OAUTH_ID_TOKEN_EXPIRATION := 3600;
  LMS_INTERNAL_ROOT_URL := "http://lms";
  ENTERPRISE_ENROLLMENT_API_URL := "http://lms/api/enrollment/v1/";
  ENTERPRISE_CATALOG_INTERNAL_ROOT_URL := "http://catalog";
  COURSE_MODE_SORT_ORDER :=
    ["verified"; "professional"; "no-id-professional"; "audit"; "honor"];
  EXCLUDED_COURSE_MODES := ["credit"]
|}.

(** A freshly constructed client in front of a scripted service. *)
Definition fresh {C} (me : C) (script : list (result response))
  : @state platform C :=
  @mkState platform C me 0 script [].

Definition course_mode (slug name : string) : mode :=
  {[ "slug" := slug; "name" := name ]}.

Definition course_modes : list mode :=
  [ course_mode "audit" "Audit";
    course_mode "credit" "Credit";
    course_mode "masters" "Masters";
    course_mode "verified" "Verified";
    course_mode "executive" "Executive Education";
    course_mode "audit" "Audit (second run)" ].

Definition course_details : response :=
  {[ "course_id" := FText "course-v1:edX+DemoX+2020";
     "course_modes" := FModes course_modes ]}.

Definition refreshing (task : string) : response :=
  {[ "async_task_id" := FText task ]}.

(** A catalog client that has made no request yet. *)
Definition catalogs_client : @state alternating JwtLmsApiClient.t :=
  @mkState alternating _ (@EnterpriseCatalogApiClient.init alternating "worker")
    0 0%nat [].

(** An enrollment client whose next request times out, one whose next request
    is answered with the course details, and a course client whose next
    request times out. *)
Definition enrollment_down : @state platform JwtLmsApiClient.t :=
  fresh (@EnrollmentApiClient.init platform "worker") [Raise Timeout].

Definition enrollment_up : @state platform JwtLmsApiClient.t :=
  fresh (@EnrollmentApiClient.init platform "worker") [Ok course_details].

Definition courses_down : @state platform CourseApiClient.t :=
  fresh (@CourseApiClient.init platform) [Raise Timeout].

Definition catalog_a : EnterpriseCatalogApiClient.EnterpriseCustomerCatalog :=
  EnterpriseCatalogApiClient.mkCatalog "7467c9d2" "All courses".

Definition catalog_b : EnterpriseCatalogApiClient.EnterpriseCustomerCatalog :=
  EnterpriseCatalogApiClient.mkCatalog "a2d6c1f0" "Business".

End Scenario.

(** ** The three transmission paths *)

Inductive path : Type :=
| Completion                (* [transmit] *)
| AssessmentLevel           (* [assessment_level_transmit] *)
| SingleLearnerAssessment.  (* [single_learner_assessment_grade_transmit] *)

(** The stages of the pass-through, as the log shows them. *)
Inductive stage : Type :=
| Serialized (r : LearnerTransmitter.LearnerData)
| Posted (r : LearnerTransmitter.LearnerData)
| Saved (r : LearnerTransmitter.LearnerData).

Section Paths.
Import LearnerTransmitter.
Context `{Channel}.

(** The method of a path, the body of its loop, the records it loops over and
    the client operation it calls. *)
Definition method (p : path) : Exporter -> kwargs -> M world unit :=
  match p with
  | Completion => transmit
  | AssessmentLevel => assessment_level_transmit
  | SingleLearnerAssessment => single_learner_assessment_grade_transmit
  end.

Definition body (p : path) : kwargs -> LearnerData -> M world LearnerData :=
  match p with
  | Completion => transmit_record
  | AssessmentLevel => assessment_level_transmit_record
  | SingleLearnerAssessment => single_learner_assessment_grade_transmit_record
  end.

Definition records (p : path) (exporter : Exporter) (kw : kwargs) (w : world)
  : list LearnerData :=
  match p with
  | Completion => export exporter kw (db w)
  | AssessmentLevel => bulk_assessment_level_export exporter
  | SingleLearnerAssessment => single_assessment_level_export exporter kw (db w)
  end.

Definition operation_of (p : path) : operation :=
  match p with
  | Completion => create_course_completion_op
  | _ => create_assessment_reporting_op
  end.

(** The learner id the log lines of a path carry. *)
Definition learner_of (p : path) (kw : kwargs) (r : LearnerData) : option Z :=
  match p with
  | SingleLearnerAssessment => learner_to_transmit kw
  | _ => lms_user_id_for_ent_course_enrollment_id (enterprise_course_enrollment_id r)
  end.

(** What [is_already_transmitted] reports for a record, asked the way
    [transmit] asks (no subsection) or the way [assessment_level_transmit]
    asks. *)
Definition reported_sent (p : path) (r : LearnerData) (w : world) : bool :=
  is_already_transmitted (db w) (enterprise_course_enrollment_id r) (grade r)
    (match p with Completion => None | _ => subsection_id r end).

(** The records a path passes over without an attempt. *)
Definition skipped (p : path) (r : LearnerData) (w : world) : bool :=
  match p with
  | Completion => negb (course_completed r) || reported_sent Completion r w
  | AssessmentLevel => reported_sent AssessmentLevel r w
  | SingleLearnerAssessment => false
  end.

(** The outcome of the client operation in a world. *)
Definition answer (op : operation) (w : world) (remote_user payload : string)
  : result (Z * string) * partner :=
  match op with
  | create_course_completion_op => create_course_completion (api w) remote_user payload
  | create_assessment_reporting_op => create_assessment_reporting (api w) remote_user payload
  end.

(** The [code] and [body] an attempt ends with, or the exception it lets
    through. *)
Definition verdict (p : path) (outcome : result (Z * string)) : result (Z * string) :=
  match outcome with
  | Ok (code, body) =>
      match p with
      | Completion =>
          if (400 <=? code)%Z
          then Ok (code, ("Client create_course_completion failed: " ++ body)%string)
          else Ok (code, body)
      | _ => Ok (code, body)
      end
  | Raise (ClientError message status_code) => Ok (status_code, message)
  | Raise e => Raise e
  end.

(** The events of an attempt: up to the client call, ... *)
Definition before_call (p : path) (kw : kwargs) (r : LearnerData) : list event :=
  match p with
  | Completion =>
      [EvSerialize r;
       EvIsAlreadyTransmitted (enterprise_course_enrollment_id r) (grade r) None false]
  | AssessmentLevel =>
      [EvSerialize r;
       EvIsAlreadyTransmitted (enterprise_course_enrollment_id r) (grade r)
         (subsection_id r) false]
  | SingleLearnerAssessment =>
      [EvLogInfo Started (learner_of p kw r) r; EvSerialize r]
  end.

(** ... and the log line after it. *)
Definition after_call (p : path) (kw : kwargs) (r : LearnerData)
    (outcome : result (Z * string)) : list event :=
  match outcome with
  | Ok (code, body) =>
      match p with
      | Completion =>
          if (400 <=? code)%Z
          then [EvLogException
                  (FailedToSend
                     ("Client create_course_completion failed: " ++ body)%string code)
                  (learner_of p kw r) r]
          else [EvLogInfo SuccessfullySent (learner_of p kw r) r]
      | AssessmentLevel => [EvLogInfo SuccessfullySent (learner_of p kw r) r]
      | SingleLearnerAssessment => []
      end
  | Raise (ClientError message status_code) =>
      [EvLogException (FailedToSend message status_code) (learner_of p kw r) r]
  | Raise _ =>
      [EvLogException (FailedWithException "create_assessment_reporting")
         (learner_of p kw r) r]
  end.

(** The world with more events in its log. *)
Definition noted (w : world) (evs : list event) : world :=
  mkWorld _ (db w) (api w) (log w ++ evs).

Definition is_client_call (ev : event) : bool :=
  match ev with EvClient _ _ _ _ => true | _ => false end.

Definition is_save (ev : event) : bool :=
  match ev with EvSave _ => true | _ => false end.

Definition is_audit_lookup (ev : event) : bool :=
  match ev with EvIsAlreadyTransmitted _ _ _ _ => true | _ => false end.

(** Events that neither call the client nor save a record. *)
Definition quiet (evs : list event) : Prop :=
  Forall (fun ev => is_client_call ev = false /\ is_save ev = false) evs.

Definition stage_of (ev : event) : option stage :=
  match ev with
  | EvSerialize r => Some (Serialized r)
  | EvClient _ r _ _ => Some (Posted r)
  | EvSave r => Some (Saved r)
  | _ => None
  end.

Definition stages (evs : list event) : list stage := omap stage_of evs.

(** The remote user of a record, as [getattr] finds it. *)
Definition remote_user_of (kw : kwargs) (r : LearnerData) : option string :=
  name ← remote_user_id kw; attrs r !! name.

(** An attempt on [r] in [w] ends with [code] and [body] recorded: the record
    is left with the status and error message they give, and is saved last. *)
Definition recorded (p : path) (kw : kwargs) (r : LearnerData) (w : world)
    (code : Z) (body_text : string) : Prop :=
  exists r' w' evs,
    body p kw r w = (Ok r', w')
    /\ r' = with_result r code body_text
    /\ status r' = str code
    /\ Z.of_int <$> NilZero.int_of_string (status r') = Some code
    /\ error_message r' = (if (400 <=? code)%Z then body_text else "")
    /\ db w' = save r' (db w)
    /\ log w' = log w ++ evs ++ [EvSave r'].

(** The stages of one record of [transmit] that finds the world [w].  A
    record that is passed over is serialized and no more.  Any other is
    serialized, posted with its serialized payload and saved with a result,
    unless an exception gets through ([cut_short]): before the call when the
    record does not name its remote user, after the call otherwise. *)
Definition pass_through (kw : kwargs) (r : LearnerData) (w : world)
    (evs : list event) (cut_short : Prop) : Prop :=
  if skipped Completion r w
  then stages evs = [Serialized r] /\ quiet evs
  else match remote_user_of kw r with
       | Some remote_user =>
           EvClient create_course_completion_op r remote_user (serialize r) ∈ evs
           /\ ((exists code body_text,
                  stages evs
                  = [Serialized r; Posted r; Saved (with_result r code body_text)])
               \/ (cut_short /\ stages evs = [Serialized r; Posted r]))
       | None => cut_short /\ stages evs = [Serialized r]
       end.

(** What a log shows [is_already_transmitted] to have been asked, in order:
    enrollment id, grade and subsection id. *)
Definition asked (evs : list event) : list (Z * option string * option string) :=
  omap (fun ev =>
          match ev with
          | EvIsAlreadyTransmitted enrollment_id grade subsection_id _ =>
              Some (enrollment_id, grade, subsection_id)
          | _ => None
          end) evs.

(** One question per record ([assessment_level_transmit]), one per record
    whose course is completed ([transmit]), none. *)
Definition lookups (p : path) (rs : list LearnerData)
  : list (Z * option string * option string) :=
  match p with
  | Completion =>
      (fun r => (enterprise_course_enrollment_id r, grade r, None))
        <$> List.filter course_completed rs
  | AssessmentLevel =>
      (fun r => (enterprise_course_enrollment_id r, grade r, subsection_id r)) <$> rs
  | SingleLearnerAssessment => []
  end.

(** What a second run of [transmit] needs of the dedup query: a row saved
    with an empty error message is reported as sent for its enrollment and
    grade, ... *)
Definition reports_saved_rows : Prop :=
  forall table row,
    error_message row = "" ->
    is_already_transmitted (save row table)
      (enterprise_course_enrollment_id row) (grade row) None = true.

(** ... and what is reported as sent stays so while rows of other
    enrollments, or of the same grade, are saved. *)
Definition keeps_reporting : Prop :=
  forall table row enrollment_id grade_sent,
    is_already_transmitted table enrollment_id grade_sent None = true ->
    enterprise_course_enrollment_id row <> enrollment_id \/ grade row = grade_sent ->
    is_already_transmitted (save row table) enrollment_id grade_sent None = true.

(** Every enrollment is exported with one grade. *)
Definition one_grade_per_enrollment (rs : list LearnerData) : Prop :=
  forall r r',
    r ∈ rs -> r' ∈ rs ->
    enterprise_course_enrollment_id r = enterprise_course_enrollment_id r' ->
    grade r = grade r'.

End Paths.

(** ** A channel to run the transmitter on *)

Module Channels.
Import LearnerTransmitter.

Definition same (a b : option string) : bool :=
  match a, b with
  | Some x, Some y => String.eqb x y
  | None, None => true
  | _, _ => false
  end.

(** The rows a dedup query looks at: those of the enrollment that were sent
    without error, narrowed to the subsection when one is given. *)
Definition sent_for (enrollment_id : Z) (subsection : option string)
    (row : LearnerData) : bool :=
  (enterprise_course_enrollment_id row =? enrollment_id)%Z
  && String.eqb (error_message row) ""
  && match subsection with
     | Some _ => same (subsection_id row) subsection
     | None => true
     end.

(** Modelled from the spec: [integrated_channels.utils.is_already_transmitted]
    is not among the sources.  The spec has the audit rows store the last-sent
    grade per enrollment as an idempotence marker and has the transmitter
    deduplicate by comparing the last-sent grade; the comment above the loop
    of [transmit] adds that a failed transmission does not make the next one
    be skipped.  So: the latest row sent without error for the enrollment
    (and subsection), if any, carries the same grade. *)
Definition last_sent_grade_matches (rows : list LearnerData) (enrollment_id : Z)
    (grade subsection : option string) : bool :=
  match last (List.filter (sent_for enrollment_id subsection) rows) with
  | Some row => same (LearnerTransmitter.grade row) grade
  | None => false
  end.

(** A channel whose audit table is the list of saved rows, oldest first, and
    whose client answers successive calls from a script (and refuses the
    connection once the script is over). *)
Definition scripted : Channel := {|
  audit := list LearnerData;
  is_already_transmitted := last_sent_grade_matches;
  save := fun row rows => rows ++ [row];
  lms_user_id_for_ent_course_enrollment_id := fun enrollment_id => Some (enrollment_id + 1000)%Z;
  partner := list (result (Z * string));
  create_course_completion := fun script _ _ => Scenario.replay script;
  create_assessment_reporting := fun script _ _ => Scenario.replay script;
  serialize := fun r => ("{courseID: " ++ course_id r ++ "}")%string
|}.

Definition start (script : list (result (Z * string))) : @world scripted :=
  @mkWorld scripted [] script [].

Definition kw : kwargs := mkKwargs (Some "sapsf_user_id") (Some 7%Z).

Definition learner (enrollment_id : Z) (course : string) (completed : bool)
    (grade : string) : LearnerData :=
  mkLearnerData enrollment_id course completed (Some grade) None
    {[ "sapsf_user_id" := "sap-0042" ]} "" "".

Definition assessment (enrollment_id : Z) (course subsection grade : string)
  : LearnerData :=
  mkLearnerData enrollment_id course true (Some grade) (Some subsection)
    {[ "sapsf_user_id" := "sap-0042" ]} "" "".

(** One enrollment exported twice, by course key and by course run id, and an
    enrollment still in progress. *)
Definition by_course_key : LearnerData := learner 11 "edX+DemoX" true "Pass".
Definition by_course_run : LearnerData :=
  learner 11 "course-v1:edX+DemoX+2020" true "Pass".
Definition in_progress : LearnerData :=
  learner 12 "course-v1:edX+DemoX+2020" false "In Progress".
Definition another : LearnerData := learner 13 "course-v1:edX+Rocq+2021" true "Pass".

Definition quiz : LearnerData :=
  assessment 11 "course-v1:edX+DemoX+2020" "subsection-1" "0.8".

(** An exporter that yields [rs] whatever it is handed. *)
Definition exporting (rs : list LearnerData) : @Exporter scripted :=
  @mkExporter scripted (fun _ _ => rs) rs (fun _ _ => rs).

Definition enrollments : list LearnerData :=
  [by_course_key; by_course_run; in_progress; another].

(** The world after a first [transmit] of [enrollments] that the partner
    accepted. *)
Definition after_first_run : @world scripted :=
  (@transmit scripted (exporting enrollments) kw
     (start [Ok (200, "ok"); Ok (201, "created")]%Z)).2.

(** The world after the quiz grade went out once, with one more answer of the
    partner to come. *)
Definition after_quiz : @world scripted :=
  (@single_learner_assessment_grade_transmit scripted (exporting [quiz]) kw
     (start [Ok (200, "ok"); Ok (200, "ok")]%Z)).2.

End Channels.

(** * Further methods of [lms.py] and [enterprise_catalog.py] *)

(** In the methods below the trace keeps what it kept so far: the JWTs
    created, the requests made and the calls of [LOGGER.exception]; lines
    written with [LOGGER.error], [LOGGER.warning] or [LOGGER.info] leave no
    mark in it. *)

(** [except HttpNotFoundError] *)
Definition is_HttpNotFoundError (e : exn) : bool :=
  match e with HttpNotFoundError => true | _ => false end.

(** [s.startswith('_')] *)
Definition starts_with_underscore (s : string) : bool := String.prefix "_" s.

(** Truth value of a dictionary: empty is false. *)
Definition truthy {V} (d : gmap string V) : bool :=
  match map_to_list d with [] => false | _ :: _ => true end.

(** [for row in rows: if row.get(key) == value: return row], as an option. *)
Fixpoint first_row (key value : string) (rows : list (gmap string string))
  : option (gmap string string) :=
  match rows with
  | [] => None
  | row :: rest =>
      match row !! key with
      | Some v => if String.eqb v value then Some row else first_row key value rest
      | None => first_row key value rest
      end
  end.

Module EmbargoApiClient.

(** [openedx.core.djangoapps.embargo.api] ([None] when the import fails), by
    its [redirect_if_blocked(course_key, user=, ip_address=, url=)], and
    [CourseKey.from_string] ([None] where it raises [InvalidKeyError]). *)
Class Embargo : Type := {
  embargo_api :
    option (string -> option string -> option string -> option string
            -> option string);
  CourseKey_from_string : string -> option string
}.

Section Methods.
Context `{Embargo}.

(** [if redirect_url:] on a string or [None] *)
Definition blocked (redirect_url : option string) : bool :=
  match redirect_url with
  | Some url => negb (String.eqb url "")
  | None => false
  end.

(** [redirect_if_blocked]; the state lists the course keys the embargo API
    was asked about. *)
Fixpoint redirect_if_blocked (course_run_ids : list string)
    (user ip_address url : option string) : M (list string) (option string) :=
  match course_run_ids with
  | [] => ret None
  | course_run_id :: rest =>
      match embargo_api with
      | None => raise (AttributeError "redirect_if_blocked")
      | Some api =>
          match CourseKey_from_string course_run_id with
          | None => raise (OtherException "InvalidKeyError")
          | Some course_key =>
              modify (fun asked => asked ++ [course_key]) ;;;
              let redirect_url := api course_key user ip_address url in
              if blocked redirect_url then ret redirect_url
              else redirect_if_blocked rest user ip_address url
          end
      end
  end.

End Methods.
End EmbargoApiClient.

Module EnrollmentApi.
Import JwtLmsApiClient.

Section Methods.
Context `{Platform}.

(** [any(course_mode for course_mode in course_modes
         if course_mode['slug'] == mode)]: the generator is consumed up to
    the first true element. *)
Fixpoint any_with_slug {C} (mode : string)
    (course_modes : list (gmap string string))
  : M (state C) bool :=
  match course_modes with
  | [] => ret false
  | course_mode :: rest =>
      slug <~ item course_mode "slug" ;;
      if String.eqb slug mode && truthy course_mode then ret true
      else any_with_slug mode rest
  end.

(** [EnrollmentApiClient.has_course_mode] *)
Definition has_course_mode (course_run_id mode : string) : M (state t) bool :=
  refresh_token
    (course_modes <~ EnrollmentApiClient.get_course_modes course_run_id ;;
     any_with_slug mode course_modes).

(** [getattr(resource, name)] on the slumber resource at [path]: slumber
    raises [AttributeError] for a name that starts with an underscore (the
    docstring of [_get_underscore_safe_endpoint]). *)
Definition getattr_resource {C} (path : list string) (name : string)
  : M (state C) (list string) :=
  if starts_with_underscore name then raise (AttributeError name)
  else ret (path ++ [name]).

(** [EnrollmentApiClient._get_underscore_safe_endpoint]: the resource whose
    base url is that of [self.client.enrollment] joined with the string. *)
Definition _get_underscore_safe_endpoint (username_course_string : string)
  : M (state t) (EdxRestApiClient * list string) :=
  me <~ get_self ;;
  via <~ resource_of (client me) "enrollment" ;;
  ret (via, ["enrollment"] ++ [username_course_string]).

(** [EnrollmentApiClient.get_course_enrollment]; the empty answer of the
    endpoint ([if not result]) is the empty dictionary. *)
Definition get_course_enrollment (username course_id : string)
  : M (state t) (option response) :=
  refresh_token
    (let username_course_string := (username ++ "," ++ course_id)%string in
     endpoint <~ (if starts_with_underscore username
                  then _get_underscore_safe_endpoint username_course_string
                  else
                    me <~ get_self ;;
                    via <~ resource_of (client me) "enrollment" ;;
                    path <~ getattr_resource ["enrollment"] username_course_string ;;
                    ret (via, path)) ;;
     found <~ try_except
                (result <~ http endpoint.1 (GET endpoint.2) ;; ret (Some result))
                is_HttpNotFoundError
                (fun _ => ret None) ;;
     match found with
     | None => ret None
     | Some result => if truthy result then ret (Some result) else ret None
     end).

End Methods.
End EnrollmentApi.

Module ThirdPartyAuthApiClient.
Import JwtLmsApiClient.

Section Methods.
Context `{Platform}.

(** [__init__], with [API_BASE_URL = settings.LMS_INTERNAL_ROOT_URL +
    '/api/third_party_auth/v0/'] and [APPEND_SLASH] inherited. *)
Definition init (user : string) : t :=
  JwtLmsApiClient.init (LMS_INTERNAL_ROOT_URL ++ "/api/third_party_auth/v0/")
    false user OAUTH_ID_TOKEN_EXPIRATION.

(** [_get_results]; the query [**{param_name: param_value}] ends the
    resource of the request. *)
Definition _get_results (identity_provider param_name param_value
    result_field_name : string) : M (state t) (option string) :=
  results <~ try_except
               (me <~ get_self ;;
                via <~ resource_of (client me) "providers" ;;
                returned <~ http via
                              (GET ["providers"; identity_provider; "users";
                                    "?"; param_name; param_value]) ;;
                ret (default (FModes []) (returned !! "results")))
               is_HttpNotFoundError
               (fun _ => ret (FModes [])) ;;
  match results with
  | FModes rows =>
      ret (row ← first_row param_name param_value rows; row !! result_field_name)
  | FText s =>
      if String.eqb s "" then ret None else raise (AttributeError "get")
  end.

(** [get_remote_id] *)
Definition get_remote_id (identity_provider username : string)
  : M (state t) (option string) :=
  refresh_token (_get_results identity_provider "username" username "remote_id").

(** [get_username_from_remote_id] *)
Definition get_username_from_remote_id (identity_provider remote_id : string)
  : M (state t) (option string) :=
  refresh_token (_get_results identity_provider "remote_id" remote_id "username").

End Methods.
End ThirdPartyAuthApiClient.

Module GradesApiClient.
Import JwtLmsApiClient.

(** The endpoints that answer with a list of rows rather than a dictionary. *)
Class Listings `{Platform} : Type := {
  send_list :
    service -> EdxRestApiClient -> request
    -> result (list (gmap string string)) * service
}.

Section Methods.
Context `{Listings}.

(** [__init__], with [API_BASE_URL = settings.LMS_INTERNAL_ROOT_URL +
    '/api/grades/v1/'] and [APPEND_SLASH = True]. *)
Definition init (user : string) : t :=
  JwtLmsApiClient.init (LMS_INTERNAL_ROOT_URL ++ "/api/grades/v1/") true user
    OAUTH_ID_TOKEN_EXPIRATION.

Definition http_list (via : EdxRestApiClient) (rq : request)
  : M (state t) (list (gmap string string)) :=
  fun st =>
    let '(r, net) := send_list (remote st) via rq in
    (r, mkState (self st) (ticks st) net (trace st ++ [EvRequest via rq])).

(** [get_course_grade] *)
Definition get_course_grade (course_id username : string)
  : M (state t) (gmap string string) :=
  refresh_token
    (me <~ get_self ;;
     via <~ resource_of (client me) "courses" ;;
     results <~ http_list via (GET ["courses"; course_id; "?"; "username"; username]) ;;
     match first_row "username" username results with
     | Some row => ret row
     | None => raise HttpNotFoundError
     end).

End Methods.
End GradesApiClient.

Module EnterpriseCatalogApi.
Import JwtLmsApiClient EnterpriseCatalogApiClient.

Section Methods.
Context `{Platform}.

(** [EnterpriseCatalogApiClient.get_enterprise_catalog] *)
Definition get_enterprise_catalog (catalog_uuid : string)
    (should_raise_exception : bool) : M (state t) response :=
  refresh_token
    (me <~ get_self ;;
     endpoint <~ resource_of (client me) ENTERPRISE_CATALOG_ENDPOINT ;;
     try_except
       (http endpoint (GET [ENTERPRISE_CATALOG_ENDPOINT; catalog_uuid]))
       is_transport_error
       (fun exc =>
          (if should_raise_exception
           then emit (EvLogException
                        "Failed to get EnterpriseCustomer Catalog"
                        catalog_uuid exc)
           else ret tt) ;;;
          ret ∅)).

End Methods.
End EnterpriseCatalogApi.

(** ** Vocabulary for the further properties *)

Definition is_jwt_created (ev : api_event) : bool :=
  match ev with EvCreateJwt _ _ => true | _ => false end.

Definition is_request (ev : api_event) : bool :=
  match ev with EvRequest _ _ => true | _ => false end.

Definition is_logged_exception (ev : api_event) : bool :=
  match ev with EvLogException _ _ _ => true | _ => false end.

(** The requests of a trace, in order. *)
Definition requests (tr : list api_event) : list (EdxRestApiClient * request) :=
  omap (fun ev => match ev with EvRequest via rq => Some (via, rq) | _ => None end) tr.

(** The outcomes that are exceptions. *)
Definition raised {K A} (o : K * result A) : bool :=
  match o.2 with Raise _ => true | Ok _ => false end.

(** No row of [rows] has [value] under [key]. *)
Definition no_row (key value : string) (rows : list (gmap string string)) : Prop :=
  Forall (fun row => row !! key <> Some value) rows.

(** A computation that leaves the state as it found it, whatever it returns
    or raises. *)
Definition stateless {S A} (c : M S A) : Prop := forall s, (c s).2 = s.

Section TransmitterVocabulary.
Import LearnerTransmitter.
Context `{Channel}.

(** The records a log shows as saved, and its client calls, in order. *)
Definition saved (evs : list event) : list LearnerData :=
  omap (fun ev => match ev with EvSave r => Some r | _ => None end) evs.

Definition client_calls (evs : list event) : list event :=
  List.filter is_client_call evs.

(** The audit table after saving [rows] in order. *)
Definition save_all (rows : list LearnerData) (table : audit) : audit :=
  foldl (fun table row => save row table) table rows.

(** A saved row is an exported record with a result recorded on it. *)
Definition result_of (exported : list LearnerData) (row : LearnerData) : Prop :=
  exists r code body_text, r ∈ exported /\ row = with_result r code body_text.

End TransmitterVocabulary.

Module MoreScenarios.
Import Scenario.

(** The package outside Open edX: no JWT builder. *)
Definition standalone : Platform := {|
  JwtBuilder := None;
  time := fun n => (1600000000 + Z.of_nat n)%Z;
  service := list (result response);
  send := fun script _ _ => replay script;
  OAUTH_ID_TOKEN_EXPIRATION := 3600;
  LMS_INTERNAL_ROOT_URL := "http://lms";
  ENTERPRISE_ENROLLMENT_API_URL := "http://lms/api/enrollment/v1/";
  ENTERPRISE_CATALOG_INTERNAL_ROOT_URL := "http://catalog";
  COURSE_MODE_SORT_ORDER :=
    ["verified"; "professional"; "no-id-professional"; "audit"; "honor"];
  EXCLUDED_COURSE_MODES := ["credit"]
|}.

Definition outside : @state standalone JwtLmsApiClient.t :=
  @mkState standalone _ (@EnrollmentApiClient.init standalone "worker") 0
    [Ok course_details] [].

(** The grades endpoint of the scripted platform repeats this gradebook. *)
Definition gradebook : list (gmap string string) :=
  [ {[ "username" := "bob"; "letter_grade" := "B" ]};
    {[ "username" := "alice"; "letter_grade" := "A" ]};
    {[ "username" := "alice"; "letter_grade" := "C" ]} ].

Definition grades : @GradesApiClient.Listings platform := {|
  GradesApiClient.send_list := fun script _ _ => (Ok gradebook, script)
|}.

Definition grades_client : @state platform JwtLmsApiClient.t :=
  fresh (@GradesApiClient.init platform "worker") [].

(** An embargo that blocks the second and the fourth of these course runs;
    the third is not a course key at all. *)
Definition embargo : EmbargoApiClient.Embargo := {|
  EmbargoApiClient.embargo_api :=
    Some (fun course_key _ _ _ =>
            if String.eqb course_key "course-v1:edX+Cuba+2020"
            then Some "/embargo/blocked-message/enrollment/default/"
            else if String.eqb course_key "course-v1:edX+Iran+2020"
            then Some "/embargo/blocked-message/enrollment/embargo/"
            else None);
  EmbargoApiClient.CourseKey_from_string :=
    fun s => if String.prefix "course-v1:" s then Some s else None
|}.

Definition course_runs : list string :=
  ["course-v1:edX+DemoX+2020"; "course-v1:edX+Cuba+2020"; "not a key";
   "course-v1:edX+Iran+2020"].

(** The third-party-auth mapping of one provider. *)
Definition sso_users : response :=
  {[ "results" :=
       FModes [ {[ "username" := "bob"; "remote_id" := "bob@corp" ]};
                {[ "username" := "alice"; "remote_id" := "alice@corp" ]} ] ]}.

Definition sso_client (script : list (result response))
  : @state platform JwtLmsApiClient.t :=
  fresh (@ThirdPartyAuthApiClient.init platform "worker") script.

Definition enrollment_client (script : list (result response))
  : @state platform JwtLmsApiClient.t :=
  fresh (@EnrollmentApiClient.init platform "worker") script.

(** A catalog client whose next request times out, and one whose refresh
    endpoint first answers without a task id. *)
Definition catalog_down : @state platform JwtLmsApiClient.t :=
  fresh (@EnterpriseCatalogApiClient.init platform "worker") [Raise Timeout].

Definition catalog_odd : @state platform JwtLmsApiClient.t :=
  fresh (@EnterpriseCatalogApiClient.init platform "worker")
    [Ok {[ "detail" := FText "accepted" ]}; Ok (refreshing "task-2")].

(** A catalog client whose refresh endpoint starts a task, times out, and
    starts another task. *)
Definition catalog_mixed : @state platform JwtLmsApiClient.t :=
  fresh (@EnterpriseCatalogApiClient.init platform "worker")
    [Ok (refreshing "task-1"); Raise Timeout; Ok (refreshing "task-3")].

Definition enrollment_of_jane : response :=
  {[ "user" := FText "_jane"; "mode" := FText "audit" ]}.

End MoreScenarios.

(** * Properties *)

(** ** JWT refresh *)

Section JwtRefresh.
Context `{Platform}.
Import JwtLmsApiClient.
Local Open Scope Z_scope.

Lemma token_expired_run (st : state t) :
  token_expired st = (Ok (expires_at (self st) <? time (ticks st)), after_reading st).
Proof. reflexivity. Qed.

Lemma connect_run create (st : state t) :
  JwtBuilder = Some create -> connect st = (Ok tt, connected create st).
Proof. intros E. unfold connect. rewrite E. reflexivity. Qed.

Lemma refresh_token_run {A} (func : M (state t) A) (st : state t) :
  refresh_token func st =
  if expires_at (self st) <? time (ticks st)
  then (connect ;;; func) (after_reading st)
  else func (after_reading st).
Proof.
  unfold refresh_token, bind at 1. rewrite token_expired_run.
  destruct (expires_at (self st) <? time (ticks st)); reflexivity.
Qed.

Lemma refresh_token_ready {A} create (func : M (state t) A) (st : state t) :
  JwtBuilder = Some create -> refresh_token func st = func (ready create st).
Proof.
  intros E. rewrite refresh_token_run. unfold ready, bind.
  destruct (expires_at (self st) <? time (ticks st)); [|done].
  by rewrite (connect_run create).
Qed.

Lemma ready_has_client create (st : state t) :
  client_or_expired st -> is_Some (client (self (ready create st))).
Proof.
  unfold client_or_expired, ready. intros Hinv.
  destruct (Z.ltb_spec (expires_at (self st)) (time (ticks st))) as [Hlt|Hge].
  - simpl. eauto.
  - simpl. destruct (client (self st)) eqn:E; [eauto|]. specialize (Hinv eq_refl). lia.
Qed.

Lemma ready_client_or_expired create (st : state t) :
  client_or_expired st -> client_or_expired (ready create st).
Proof.
  intros Hinv Hnone. destruct (ready_has_client create st Hinv) as [via Hvia].
  congruence.
Qed.

Lemma ready_remote create (st : state t) : remote (ready create st) = remote st.
Proof. unfold ready. by destruct (_ <? _). Qed.

(** C4. A method wrapped by [refresh_token] reads the clock; if the reading is
    past [expires_at] (as any positive reading is for a fresh instance, whose
    [expires_at] is 0) it runs [connect] and only then the method, and
    [connect] leaves [expires_at] at its own clock reading plus [expires_in],
    so that the token is unexpired at every reading up to that instant (at the
    reading of [connect] itself, for a non-negative [expires_in]); if the
    reading is not past [expires_at] the method runs at once on the instance
    as it is, without [connect]. *)
Theorem refresh_token_reconnects_when_expired {A} (func : M (state t) A)
    (st : state t) :
  let now := time (ticks st) in
  (expires_at (self st) < now ->
     let st1 := after_reading st in
     refresh_token func st = (connect ;;; func) st1
     /\ forall create, JwtBuilder = Some create ->
        let st2 := connected create st1 in
        connect st1 = (Ok tt, st2)
        /\ refresh_token func st = func st2
        /\ trace st2 = trace st ++ [EvCreateJwt (user (self st)) (time (ticks st1))]
        /\ expires_at (self st2) = time (ticks st1) + expires_in (self st)
        /\ (forall later, later <= time (ticks st1) + expires_in (self st) ->
              (expires_at (self st2) <? later) = false)
        /\ (0 <= expires_in (self st) ->
              (expires_at (self st2) <? time (ticks st1)) = false))
  /\ (forall url slash u e,
        self st = init url slash u e -> 0 < now -> expires_at (self st) < now)
  /\ (now <= expires_at (self st) ->
        refresh_token func st = func (after_reading st)
        /\ self (after_reading st) = self st
        /\ trace (after_reading st) = trace st).
Proof.
  intros now. split; [|split].
  - intros Hexp st1.
    assert (Hrun : refresh_token func st = (connect ;;; func) st1).
    { rewrite refresh_token_run.
      destruct (Z.ltb_spec (expires_at (self st)) (time (ticks st))); [done | lia]. }
    split; [done|]. intros create Hjwt st2.
    assert (Hconn : connect st1 = (Ok tt, st2)) by (by apply connect_run).
    repeat split; try done.
    + rewrite Hrun. unfold bind. by rewrite Hconn.
    + intros later Hl. simpl. apply Z.ltb_ge. exact Hl.
    + intros Hnn. simpl. apply Z.ltb_ge. lia.
  - intros url slash u e -> Hpos. simpl. exact Hpos.
  - intros Hok. repeat split; try done.
    rewrite refresh_token_run.
    destruct (Z.ltb_spec (expires_at (self st)) (time (ticks st))); [lia | done].
Qed.

End JwtRefresh.

(** ** Transport errors of the LMS clients *)

Section TransportErrors.
Context `{Platform}.
Import JwtLmsApiClient.

Lemma http_run {C} (st : state C) via rq r net :
  send (remote st) via rq = (r, net) -> http via rq st = (r, requested st via rq net).
Proof. intros E. unfold http. by rewrite E. Qed.

(** The wrapped body of [EnrollmentApiClient.get_course_details]. *)
Lemma enrollment_details_absorbed course_id e net via (st : state t) :
  client (self st) = Some via ->
  is_transport_error e = true ->
  send (remote st) via (GET ["course"; course_id]) = (Raise e, net) ->
  try_except
    (me <~ get_self ;;
     via <~ resource_of (client me) "course" ;;
     http via (GET ["course"; course_id]))
    is_transport_error
    (fun exc =>
       emit (EvLogException
               "Failed to retrieve course enrollment details for course"
               course_id exc) ;;;
       ret ∅) st
  = (Ok ∅,
     logged (requested st via (GET ["course"; course_id]) net)
       (EvLogException "Failed to retrieve course enrollment details for course"
          course_id e)).
Proof.
  intros Hc He Hs. unfold try_except, bind, get_self. rewrite Hc. simpl.
  rewrite (http_run _ _ _ _ _ Hs), He. reflexivity.
Qed.

Lemma enrollment_details_run create course_id e net (st : state t) :
  JwtBuilder = Some create ->
  client_or_expired st ->
  is_transport_error e = true ->
  (forall via, send (remote st) via (GET ["course"; course_id]) = (Raise e, net)) ->
  exists via,
    client (self (ready create st)) = Some via /\
    EnrollmentApiClient.get_course_details course_id st
    = (Ok ∅,
       logged (requested (ready create st) via (GET ["course"; course_id]) net)
         (EvLogException "Failed to retrieve course enrollment details for course"
            course_id e)).
Proof.
  intros Hjwt Hinv He Hs.
  destruct (ready_has_client create st Hinv) as [via Hvia].
  exists via. split; [done|].
  unfold EnrollmentApiClient.get_course_details.
  rewrite (refresh_token_ready create) by done.
  apply enrollment_details_absorbed; try done.
  rewrite ready_remote. apply Hs.
Qed.


End TransportErrors.

(** ** [sorted(..., reverse=True)] *)

Section SortedReverse.
Context {A : Type}.
Implicit Types (l : list (Z * A)) (k w : Z) (x : A).

Lemma insert_reverse_Permutation k x l : insert_reverse k x l ≡ₚ (k, x) :: l.
Proof.
  induction l as [|[k' y] l IH]; simpl; [done|].
  destruct (k <? k')%Z; [|done].
  rewrite IH. apply Permutation_swap.
Qed.

Lemma sort_keyed_Permutation l : sort_keyed l ≡ₚ l.
Proof.
  induction l as [|[k x] l IH]; simpl; [done|].
  rewrite insert_reverse_Permutation. by rewrite IH.
Qed.

Lemma insert_reverse_descending k x l :
  descending l -> descending (insert_reverse k x l).
Proof.
  unfold descending. induction 1 as [|[k' y] l Hl IH Hall]; simpl.
  - repeat constructor.
  - destruct (Z.ltb_spec k k') as [Hlt|Hge].
    + constructor; [done|].
      rewrite insert_reverse_Permutation. constructor; [simpl; lia|done].
    + constructor; [by constructor|].
      constructor; [simpl; lia|].
      eapply Forall_impl; [exact Hall|]. simpl. intros; lia.
Qed.

Lemma sort_keyed_descending l : descending (sort_keyed l).
Proof.
  induction l as [|[k x] l IH]; simpl; [constructor|].
  by apply insert_reverse_descending.
Qed.

Lemma insert_reverse_stable w k x l :
  filter (fun kx => kx.1 = w) (insert_reverse k x l)
  = filter (fun kx => kx.1 = w) ((k, x) :: l).
Proof.
  induction l as [|[k' y] l IH]; simpl; [done|].
  destruct (Z.ltb_spec k k') as [Hlt|Hge]; [|done].
  rewrite (filter_cons _ (k', y)), IH, !filter_cons. simpl.
  repeat case_decide; try done. lia.
Qed.

Lemma sort_keyed_stable w l :
  filter (fun kx => kx.1 = w) (sort_keyed l) = filter (fun kx => kx.1 = w) l.
Proof.
  induction l as [|[k x] l IH]; simpl; [done|].
  rewrite insert_reverse_stable, !filter_cons. by rewrite IH.
Qed.

Lemma descending_precedes l a b : descending l -> precedes l a b -> (b.1 <= a.1)%Z.
Proof.
  intros Hs (l1 & l2 & l3 & ->).
  apply StronglySorted_app_1_r, StronglySorted_cons in Hs as [Hall _].
  rewrite Forall_forall in Hall. apply Hall. set_solver.
Qed.

(** Keys that were computed from the elements by [key]. *)
Lemma filter_keyed (key : A -> Z) w (xs : list A) l :
  l ≡ₚ (fun x => (key x, x)) <$> xs ->
  filter (fun x => key x = w) l.*2 = (filter (fun kx => kx.1 = w) l).*2.
Proof.
  intros Hp.
  assert (Hall : Forall (fun kx => kx.1 = key kx.2) l).
  { rewrite Hp. apply Forall_fmap, Forall_forall. done. }
  clear Hp. induction Hall as [|[k x] l Hk _ IH]; [done|].
  simpl in Hk. subst k. rewrite fmap_cons, !filter_cons. simpl.
  case_decide; [rewrite fmap_cons; simpl|]; by rewrite IH.
Qed.

Lemma precedes_fmap {B} (f : B -> A) (l : list B) (a b : A) :
  precedes (f <$> l) a b ->
  exists a' b', a = f a' /\ b = f b' /\ precedes l a' b'.
Proof.
  intros (l1 & l2 & l3 & E).
  apply fmap_app_inv in E as (l1' & r1 & -> & E & ->).
  symmetry in E. apply fmap_cons_inv in E as (a' & r2 & -> & E & ->).
  symmetry in E. apply fmap_app_inv in E as (l2' & r3 & -> & E & ->).
  symmetry in E. apply fmap_cons_inv in E as (b' & l3' & -> & -> & ->).
  exists a', b'. repeat split. by exists l1', l2', l3'.
Qed.

(** What [sorted(xs, key=key, reverse=True)] returns: a permutation of [xs],
    keys never increasing, and the elements of each key in their order in
    [xs]. *)
Lemma sorted_reverse_spec (key : A -> Z) (xs : list A) :
  let out := sorted_reverse ((fun x => (key x, x)) <$> xs) in
  out ≡ₚ xs
  /\ (forall a b, precedes out a b -> (key b <= key a)%Z)
  /\ (forall w, filter (fun x => key x = w) out = filter (fun x => key x = w) xs).
Proof.
  set (keyed := (fun x => (key x, x)) <$> xs). unfold sorted_reverse.
  assert (Hsnd : keyed.*2 = xs).
  { unfold keyed. rewrite <- list_fmap_compose. apply list_fmap_id. }
  split; [|split].
  - by rewrite (sort_keyed_Permutation keyed), Hsnd.
  - intros a b Hp.
    apply precedes_fmap in Hp as ([ka a'] & [kb b'] & -> & -> & Hp). simpl.
    pose proof (descending_precedes _ _ _ (sort_keyed_descending keyed) Hp) as Hle.
    assert (Hall : Forall (fun kx => kx.1 = key kx.2) (sort_keyed keyed)).
    { rewrite (sort_keyed_Permutation keyed). apply Forall_fmap, Forall_forall. done. }
    rewrite Forall_forall in Hall. destruct Hp as (l1 & l2 & l3 & E).
    pose proof (Hall (ka, a')) as Ha. pose proof (Hall (kb, b')) as Hb.
    rewrite E in Ha, Hb. simpl in *. rewrite <- Ha, <- Hb by set_solver. done.
  - intros w.
    rewrite (filter_keyed key w xs) by apply sort_keyed_Permutation.
    rewrite sort_keyed_stable, <- (filter_keyed key w xs keyed) by done.
    by rewrite Hsnd.
Qed.

End SortedReverse.

(** ** Course modes of the Enrollment API *)

Section CourseModesOrder.
Context `{Platform}.
Import JwtLmsApiClient.

Lemma index_lt x xs i : index x xs = Some i -> (i < length xs)%nat.
Proof.
  revert i. induction xs as [|y xs IH]; simpl; intros i; [done|].
  destruct (String.eqb x y).
  - intros [= <-]. lia.
  - destruct (index x xs) as [j|]; simpl; [|done].
    intros [= <-]. specialize (IH j eq_refl). lia.
Qed.

Lemma contains_index x xs : contains x xs = true <-> is_Some (index x xs).
Proof.
  unfold contains. induction xs as [|y xs IH]; simpl.
  - split; [done|]. by intros [? ?].
  - destruct (String.eqb x y); simpl; [by eauto|].
    rewrite IH. destruct (index x xs); simpl; split; eauto; by intros [? ?].
Qed.

(** A slug of the sort order weighs its distance from the end of the list;
    any other slug weighs nothing. *)
Lemma weight_of_listed slug i :
  index slug COURSE_MODE_SORT_ORDER = Some i ->
  weight_of slug = (Z.of_nat (length COURSE_MODE_SORT_ORDER) - Z.of_nat i)%Z
  /\ (0 < weight_of slug)%Z.
Proof.
  intros Hi. unfold weight_of.
  assert (Hc : contains slug COURSE_MODE_SORT_ORDER = true)
    by (apply contains_index; eauto).
  rewrite Hc, Hi. apply index_lt in Hi. lia.
Qed.

Lemma weight_of_unlisted slug :
  contains slug COURSE_MODE_SORT_ORDER = false -> weight_of slug = 0%Z.
Proof. intros Hc. unfold weight_of. by rewrite Hc. Qed.

Lemma weight_of_positive slug :
  (0 < weight_of slug)%Z -> contains slug COURSE_MODE_SORT_ORDER = true.
Proof.
  destruct (contains slug COURSE_MODE_SORT_ORDER) eqn:Hc; [done|].
  rewrite weight_of_unlisted by done. lia.
Qed.

Lemma slug_weight_run {C} (m : mode) (st : state C) :
  has_slug m -> EnrollmentApiClient.slug_weight m st = (Ok (weight m), st).
Proof.
  intros [slug Hs].
  unfold EnrollmentApiClient.slug_weight, weight, weight_of, slug_of, item, bind.
  rewrite Hs. simpl.
  destruct (contains slug COURSE_MODE_SORT_ORDER) eqn:Hc; [|done].
  apply contains_index in Hc as [i Hi]. by rewrite Hi.
Qed.

Lemma weights_run {C} (ms : list mode) (st : state C) :
  Forall has_slug ms ->
  for_each (fun mode => w <~ EnrollmentApiClient.slug_weight mode ;; ret (w, mode))
    ms st
  = (Ok ((fun m => (weight m, m)) <$> ms), st).
Proof.
  induction 1 as [|m ms Hm _ IH]; simpl; [done|].
  unfold bind in *. rewrite slug_weight_run by done. simpl. by rewrite IH.
Qed.

Lemma keep_offered_run {C} (ms : list mode) (st : state C) :
  Forall has_slug ms ->
  keep_if
    (fun mode =>
       slug <~ item mode "slug" ;;
       ret (negb (contains slug EXCLUDED_COURSE_MODES)))
    ms st
  = (Ok (filter (fun m => offered m = true) ms), st).
Proof.
  induction 1 as [|m ms [slug Hm] _ IH]; simpl; [done|].
  assert (Ho : offered m = negb (contains slug EXCLUDED_COURSE_MODES)).
  { unfold offered, slug_of. by rewrite Hm. }
  unfold bind, item in *. rewrite Hm. simpl. rewrite IH.
  rewrite filter_cons, Ho.
  by destruct (negb (contains slug EXCLUDED_COURSE_MODES)).
Qed.

Lemma sort_course_modes_run {C} (ms : list mode) (st : state C) :
  Forall has_slug ms ->
  EnrollmentApiClient._sort_course_modes ms st
  = (Ok (sorted_reverse ((fun m => (weight m, m)) <$> ms)), st).
Proof.
  intros Hall. unfold EnrollmentApiClient._sort_course_modes. unfold bind at 1.
  by rewrite weights_run.
Qed.

Lemma enrollment_details_fetched create course_id details net (st : state t) :
  JwtBuilder = Some create ->
  client_or_expired st ->
  (forall via, send (remote st) via (GET ["course"; course_id]) = (Ok details, net)) ->
  exists via,
    EnrollmentApiClient.get_course_details course_id st
    = (Ok details, requested (ready create st) via (GET ["course"; course_id]) net).
Proof.
  intros Hjwt Hinv Hs.
  destruct (ready_has_client create st Hinv) as [via Hvia]. exists via.
  unfold EnrollmentApiClient.get_course_details.
  rewrite (refresh_token_ready create) by done.
  pose proof (Hs via) as Hsend. rewrite <- (ready_remote create) in Hsend.
  unfold try_except, bind, get_self. rewrite Hvia. simpl.
  by rewrite (http_run _ _ _ _ _ Hsend).
Qed.


End CourseModesOrder.

(** ** Refreshing catalogs *)

Section RefreshCatalogs.
Context `{Platform}.
Import JwtLmsApiClient EnterpriseCatalogApiClient.

Lemma tally_keys outcomes (acc : gmap string field * list string) :
  dom (tally outcomes acc).1 ∪ list_to_set (tally outcomes acc).2
  = dom acc.1 ∪ list_to_set acc.2 ∪ (list_to_set outcomes.*1 : gset string).
Proof.
  revert acc. induction outcomes as [|[u [task|e]] rest IH]; intros [m f]; simpl.
  - set_solver.
  - rewrite IH. simpl. rewrite dom_insert_L. set_solver.
  - rewrite IH. simpl. rewrite list_to_set_app_L. set_solver.
Qed.

(** Uuids that are not posted again keep their place. *)
Lemma tally_other outcomes (acc : gmap string field * list string) u :
  u ∉ outcomes.*1 ->
  (tally outcomes acc).1 !! u = acc.1 !! u
  /\ (u ∈ (tally outcomes acc).2 <-> u ∈ acc.2).
Proof.
  revert acc. induction outcomes as [|[u' [task|e]] rest IH]; intros [m f] Hu;
    simpl in *; [done| |].
  - destruct (IH (<[u' := task]> m, f)) as [-> ->]; [set_solver|]. simpl.
    rewrite lookup_insert_ne by set_solver. done.
  - destruct (IH (m, f ++ [u'])) as [-> ->]; [set_solver|]. simpl.
    set_solver.
Qed.

Lemma tally_outcome outcomes (acc : gmap string field * list string) u r :
  NoDup outcomes.*1 ->
  (forall v, v ∈ outcomes.*1 -> v ∉ acc.2) ->
  (u, r) ∈ outcomes ->
  match r with
  | Ok task => (tally outcomes acc).1 !! u = Some task /\ u ∉ (tally outcomes acc).2
  | Raise _ => u ∈ (tally outcomes acc).2 /\ (tally outcomes acc).1 !! u = acc.1 !! u
  end.
Proof.
  revert acc. induction outcomes as [|[u' r'] rest IH]; intros [m f] Hnd Hf Hin;
    [set_solver|].
  simpl in Hnd. apply NoDup_cons in Hnd as [Hu' Hnd].
  apply elem_of_cons in Hin as [[= <- <-]|Hin].
  - destruct r as [task|e]; simpl.
    + destruct (tally_other rest (<[u := task]> m, f) u Hu') as [-> ->]. simpl.
      rewrite lookup_insert_eq. split; [done|]. apply Hf. set_solver.
    + destruct (tally_other rest (m, f ++ [u]) u Hu') as [-> ->]. simpl.
      set_solver.
  - assert (Hne : u ≠ u').
    { intros ->. apply Hu'. apply list_elem_of_fmap. by exists (u', r). }
    destruct r' as [task'|e']; simpl.
    + specialize (IH (<[u' := task']> m, f) Hnd). simpl in IH.
      ospecialize (IH _ Hin). { intros v Hv. apply Hf. set_solver. }
      destruct r; [done|]. by rewrite lookup_insert_ne in IH.
    + specialize (IH (m, f ++ [u']) Hnd). simpl in IH.
      ospecialize (IH _ Hin).
      { intros v Hv. assert (v ≠ u') by (intros ->; done).
        assert (v ∉ f) by (apply Hf; set_solver). set_solver. }
      done.
Qed.

Lemma posts_uuids net via catalogs : (posts net via catalogs).*1 = uuid <$> catalogs.
Proof.
  revert net. induction catalogs as [|c rest IH]; intros net; simpl; [done|].
  destruct (send net via _) as [r net']. simpl. by rewrite IH.
Qed.

Lemma refresh_loop_run via catalogs acc (st : state t) :
  answers_refresh (posts (remote st) via catalogs) ->
  client (self st) = Some via ->
  exists st', refresh_loop catalogs acc st
              = (Ok (tally (posts (remote st) via catalogs) acc), st').
Proof.
  revert acc st.
  induction catalogs as [|c rest IH]; intros [m f] st Hsvc Hvia; simpl.
  - by eexists.
  - simpl in Hsvc.
    destruct (send (remote st) via (POST [REFRESH_CATALOG_ENDPOINT (uuid c)]))
      as [r net'] eqn:Hsend.
    apply Forall_cons in Hsvc as [Hfirst Hsvc]. simpl in Hfirst.
    unfold bind at 1, refresh_one, get_self.
    cbv [bind ret try_except resource_of]. rewrite Hvia.
    rewrite (http_run _ _ _ _ _ Hsend).
    destruct r as [response|e].
    + unfold item. destruct (response !! "async_task_id") as [task|]; [|done].
      cbv [ret]. apply IH; done.
    + rewrite Hfirst. cbv [emit modify]. apply IH; done.
Qed.

(** C9, as the code has it.  Provided every refresh POST of the run either
    returns a response with an ['async_task_id'] or raises
    [SlumberBaseException], [ConnectionError] or [Timeout],
    [refresh_catalogs] returns a dictionary and a list that between them
    hold the uuids of the given catalogs and no other; and when those uuids
    are pairwise distinct, each is in exactly one of the two: a key of the
    dictionary, with the task id of its response, when its POST returned, an
    element of the list when its POST raised. *)
Theorem refresh_catalogs_partitions_distinct_uuids create via catalogs
    (st : state t) :
  JwtBuilder = Some create ->
  client_or_expired st ->
  client (self (ready create st)) = Some via ->
  answers_refresh (posts (remote st) via catalogs) ->
  exists refreshed_catalogs failed_to_refresh_catalogs st',
    refresh_catalogs catalogs st
    = (Ok (refreshed_catalogs, failed_to_refresh_catalogs), st')
    /\ (forall u, u ∈ dom refreshed_catalogs \/ u ∈ failed_to_refresh_catalogs
                  <-> u ∈ uuid <$> catalogs)
    /\ (NoDup (uuid <$> catalogs) ->
        (forall u, ~ (u ∈ dom refreshed_catalogs /\ u ∈ failed_to_refresh_catalogs))
        /\ forall u r, (u, r) ∈ posts (remote st) via catalogs ->
             match r with
             | Ok task => refreshed_catalogs !! u = Some task
                          /\ u ∉ failed_to_refresh_catalogs
             | Raise _ => u ∈ failed_to_refresh_catalogs
                          /\ refreshed_catalogs !! u = None
             end).
Proof.
  intros Hjwt Hinv Hvia Hsvc.
  destruct (refresh_loop_run via catalogs (∅, []) (ready create st))
    as [st' Hrun]; [by rewrite ready_remote|done|].
  rewrite ready_remote in Hrun.
  set (outcomes := posts (remote st) via catalogs) in *.
  exists (tally outcomes (∅, [])).1, (tally outcomes (∅, [])).2, st'.
  split.
  { unfold refresh_catalogs. rewrite (refresh_token_ready create) by done.
    rewrite Hrun. by destruct (tally outcomes (∅, [])). }
  pose proof (tally_keys outcomes (∅, [])) as Hkeys. simpl in Hkeys.
  unfold outcomes in Hkeys at 3. rewrite posts_uuids in Hkeys.
  assert (Hcover : forall u,
             u ∈ dom (tally outcomes (∅, [])).1 \/ u ∈ (tally outcomes (∅, [])).2
             <-> u ∈ uuid <$> catalogs).
  { intros u. rewrite <- (elem_of_list_to_set (C := gset string) u (uuid <$> catalogs)).
    rewrite <- (elem_of_list_to_set (C := gset string) u (tally _ _).2).
    set_solver. }
  split; [done|]. intros Hnd.
  assert (Hout : forall u r, (u, r) ∈ outcomes ->
             match r with
             | Ok task => (tally outcomes (∅, [])).1 !! u = Some task
                          /\ u ∉ (tally outcomes (∅, [])).2
             | Raise _ => u ∈ (tally outcomes (∅, [])).2
                          /\ (tally outcomes (∅, [])).1 !! u = None
             end).
  { intros u r Hin.
    pose proof (tally_outcome outcomes (∅, []) u r) as Ho.
    unfold outcomes in Ho at 1. rewrite posts_uuids in Ho.
    specialize (Ho Hnd). ospecialize (Ho _ Hin); [set_solver|].
    destruct r; [done|]. simpl in Ho. by rewrite lookup_empty in Ho. }
  split; [|done].
  intros u [Hd Hf].
  assert (Hu : u ∈ outcomes.*1).
  { unfold outcomes. rewrite posts_uuids. apply Hcover. by right. }
  apply list_elem_of_fmap in Hu as ([u' r] & -> & Hin). simpl in *.
  specialize (Hout u' r Hin). destruct r as [task|e].
  - by destruct Hout.
  - destruct Hout as [_ Hnone]. apply elem_of_dom in Hd as [? ?]. congruence.
Qed.

End RefreshCatalogs.

(** ** Runs of the learner-data transmitter *)

Section TransmitterRuns.
Import LearnerTransmitter.
Context `{Channel}.

(** Unfolding of a loop body into its primitive steps. *)
Ltac run_body :=
  cbv [body transmit_record assessment_level_transmit_record
       single_learner_assessment_grade_transmit_record
       bind ret raise try_except modify get emit do_serialize
       already_transmitted getattr call do_save record_and_save on_exception
       handle_transmission_error _log_exception_supplemental_data
       noted answer operation_of reported_sent skipped learner_of
       before_call after_call verdict];
  cbn [db api log].

Ltac close_run := cbn [db api log negb fst snd]; rewrite <- ?app_assoc; reflexivity.

Lemma for_each_cons {A B} (f : A -> M world B) x xs w :
  for_each f (x :: xs) w
  = match f x w with
    | (Ok y, w') =>
        match for_each f xs w' with
        | (Ok ys, w'') => (Ok (y :: ys), w'')
        | (Raise e, w'') => (Raise e, w'')
        end
    | (Raise e, w') => (Raise e, w')
    end.
Proof. reflexivity. Qed.

Lemma method_for_each p exporter kw w :
  method p exporter kw w
  = match for_each (body p kw) (records p exporter kw w) w with
    | (Ok _, w') => (Ok tt, w')
    | (Raise e, w') => (Raise e, w')
    end.
Proof. destruct p; reflexivity. Qed.

(** One turn of the loop: the body on the first record and, unless it raises,
    the method on the remaining ones. *)
Lemma method_cons p exporter rest kw r rs w :
  records p exporter kw w = r :: rs ->
  (forall w', records p rest kw w' = rs) ->
  method p exporter kw w
  = match body p kw r w with
    | (Ok _, w') => method p rest kw w'
    | (Raise e, w') => (Raise e, w')
    end.
Proof.
  intros Hr Hrs. rewrite !method_for_each, Hr, for_each_cons.
  destruct (body p kw r w) as [[r'|e] w']; [|done].
  rewrite method_for_each, Hrs.
  by destruct (for_each (body p kw) rs w') as [[ys|e] w''].
Qed.

Lemma method_nil p exporter kw w :
  records p exporter kw w = [] -> method p exporter kw w = (Ok tt, w).
Proof. intros Hr. by rewrite method_for_each, Hr. Qed.

(** [transmit] passes over a record whose course is not completed. *)
Lemma in_progress_run kw r w :
  course_completed r = false ->
  transmit_record kw r w
  = (Ok r, noted w [EvSerialize r;
                    EvLogInfo SkippingInProgress (learner_of Completion kw r) r]).
Proof.
  intros Hc. run_body. rewrite Hc. close_run.
Qed.

(** [transmit] and [assessment_level_transmit] pass over a record that
    [is_already_transmitted] reports. *)
Lemma completion_sent_run kw r w :
  course_completed r = true ->
  reported_sent Completion r w = true ->
  transmit_record kw r w
  = (Ok r, noted w [EvSerialize r;
                    EvIsAlreadyTransmitted (enterprise_course_enrollment_id r)
                      (grade r) None true;
                    EvLogInfo SkippingPreviouslySent (learner_of Completion kw r) r]).
Proof.
  unfold reported_sent. intros Hc Hs. run_body. rewrite Hc. simpl. rewrite Hs.
  close_run.
Qed.

Lemma assessment_sent_run kw r w :
  reported_sent AssessmentLevel r w = true ->
  assessment_level_transmit_record kw r w
  = (Ok r, noted w [EvSerialize r;
                    EvIsAlreadyTransmitted (enterprise_course_enrollment_id r)
                      (grade r) (subsection_id r) true;
                    EvLogInfo SkippingPreviouslySent
                      (learner_of AssessmentLevel kw r) r]).
Proof.
  unfold reported_sent. intros Hs. run_body. rewrite Hs.
  close_run.
Qed.

(** An attempt, on any path: the record is not passed over and names its
    remote user.  The client is called once; a response or a [ClientError]
    ends in a saved record, any other exception gets through. *)
Lemma attempt_run p kw r w name remote_user :
  skipped p r w = false ->
  remote_user_id kw = Some name ->
  attrs r !! name = Some remote_user ->
  let op := operation_of p in
  let outcome := (answer op w remote_user (serialize r)).1 in
  let api' := (answer op w remote_user (serialize r)).2 in
  let evs := before_call p kw r
             ++ [EvClient op r remote_user (serialize r)]
             ++ after_call p kw r outcome in
  body p kw r w
  = match verdict p outcome with
    | Ok (code, body) =>
        let r' := with_result r code body in
        (Ok r', mkWorld _ (save r' (db w)) api' (log w ++ evs ++ [EvSave r']))
    | Raise e => (Raise e, mkWorld _ (db w) api' (log w ++ evs))
    end.
Proof.
  intros Hskip Hname Huser.
  destruct p; simpl in Hskip; run_body.
  - apply orb_false_iff in Hskip as [Hc Hs]. apply negb_false_iff in Hc.
    unfold reported_sent in Hs. rewrite Hc. simpl. rewrite Hs, Hname, Huser.
    cbn [db api log].
    destruct (create_course_completion (api w) remote_user (serialize r))
      as [[[code body]|e] api']; simpl.
    + destruct (400 <=? code)%Z; close_run.
    + destruct e; close_run.
  - unfold reported_sent in Hskip. rewrite Hskip, Hname, Huser.
    cbn [db api log].
    destruct (create_assessment_reporting (api w) remote_user (serialize r))
      as [[[code body]|e] api']; simpl.
    + close_run.
    + destruct e; close_run.
  - rewrite Hname, Huser.
    cbn [db api log].
    destruct (create_assessment_reporting (api w) remote_user (serialize r))
      as [[[code body]|e] api']; simpl.
    + close_run.
    + destruct e; close_run.
Qed.

(** An attempt whose record does not name its remote user: [getattr] raises
    inside the [try], so the exception is logged and gets through. *)
Lemma unresolved_run p kw r w :
  skipped p r w = false ->
  remote_user_of kw r = None ->
  exists e,
    body p kw r w
    = (Raise e,
       noted w (before_call p kw r
                ++ [EvLogException (FailedWithException "create_assessment_reporting")
                      (learner_of p kw r) r])).
Proof.
  unfold remote_user_of. intros Hskip Hnone.
  destruct p; simpl in Hskip; run_body.
  - apply orb_false_iff in Hskip as [Hc Hs]. apply negb_false_iff in Hc.
    unfold reported_sent in Hs. rewrite Hc. simpl. rewrite Hs.
    destruct (remote_user_id kw) as [name|]; simpl in Hnone;
      [rewrite Hnone|]; eexists; close_run.
  - unfold reported_sent in Hskip. rewrite Hskip.
    destruct (remote_user_id kw) as [name|]; simpl in Hnone;
      [rewrite Hnone|]; eexists; close_run.
  - destruct (remote_user_id kw) as [name|]; simpl in Hnone;
      [rewrite Hnone|]; eexists; close_run.
Qed.

End TransmitterRuns.

(** ** Deduplication and failures of the transmissions *)

Section Transmissions.
Import LearnerTransmitter.
Context `{Channel}.

Lemma noted_noted w evs evs' : noted (noted w evs) evs' = noted w (evs ++ evs').
Proof. unfold noted. simpl. by rewrite app_assoc. Qed.

Lemma noted_nil w : noted w [] = w.
Proof. destruct w. unfold noted. simpl. by rewrite app_nil_r. Qed.

Lemma noted_inj w evs evs' : noted w evs = noted w evs' -> evs = evs'.
Proof.
  unfold noted. intros Heq. apply (f_equal log) in Heq. simpl in Heq.
  by apply app_inv_head in Heq.
Qed.

Lemma reported_sent_noted p r w evs :
  reported_sent p r (noted w evs) = reported_sent p r w.
Proof. reflexivity. Qed.

Lemma quiet_app evs evs' : quiet evs -> quiet evs' -> quiet (evs ++ evs').
Proof. apply Forall_app_2. Qed.

Lemma quiet_saved evs : quiet evs -> saved evs = [].
Proof.
  induction 1 as [|ev evs [_ Hs] _ IH]; [done|].
  unfold saved in *. simpl. destruct ev; try done.
Qed.

Lemma quiet_client_calls evs : quiet evs -> client_calls evs = [].
Proof.
  induction 1 as [|ev evs [Hc _] _ IH]; [done|].
  unfold client_calls in *. simpl. by rewrite Hc.
Qed.

Lemma saved_app evs evs' : saved (evs ++ evs') = saved evs ++ saved evs'.
Proof. apply omap_app. Qed.

Lemma client_calls_app evs evs' :
  client_calls (evs ++ evs') = client_calls evs ++ client_calls evs'.
Proof. apply List.filter_app. Qed.

Lemma save_all_app rows rows' table :
  save_all (rows ++ rows') table = save_all rows' (save_all rows table).
Proof. apply foldl_app. Qed.

Lemma quiet_before_call p kw r : quiet (before_call p kw r).
Proof. destruct p; repeat constructor. Qed.

Lemma quiet_after_call p kw r outcome : quiet (after_call p kw r outcome).
Proof.
  destruct outcome as [[code body_text]|e]; simpl.
  - destruct p; [destruct (400 <=? code)%Z| |]; repeat constructor.
  - destruct e; repeat constructor.
Qed.

(** [transmit] on a record that is in progress or reported as sent. *)
Lemma transmit_record_passes_over kw r w :
  (course_completed r = true -> reported_sent Completion r w = true) ->
  exists evs, transmit_record kw r w = (Ok r, noted w evs) /\ quiet evs.
Proof.
  intros Hsent. destruct (course_completed r) eqn:Hc.
  - rewrite completion_sent_run by auto. eexists. split; [done|].
    repeat constructor.
  - rewrite in_progress_run by done. eexists. split; [done|].
    repeat constructor.
Qed.

(** A record that a path passes over. *)
Lemma skipped_run p kw r w :
  skipped p r w = true ->
  exists evs, body p kw r w = (Ok r, noted w evs) /\ quiet evs.
Proof.
  destruct p; simpl; intros Hskip; [| |done].
  - apply transmit_record_passes_over. intros Hc. by rewrite Hc in Hskip.
  - rewrite (assessment_sent_run kw r w Hskip). eexists. split; [done|].
    repeat constructor.
Qed.

Lemma resolved_run p kw r w remote_user :
  skipped p r w = false ->
  remote_user_of kw r = Some remote_user ->
  let op := operation_of p in
  let outcome := (answer op w remote_user (serialize r)).1 in
  let api' := (answer op w remote_user (serialize r)).2 in
  let evs := before_call p kw r
             ++ [EvClient op r remote_user (serialize r)]
             ++ after_call p kw r outcome in
  body p kw r w
  = match verdict p outcome with
    | Ok (code, body) =>
        let r' := with_result r code body in
        (Ok r', mkWorld _ (save r' (db w)) api' (log w ++ evs ++ [EvSave r']))
    | Raise e => (Raise e, mkWorld _ (db w) api' (log w ++ evs))
    end.
Proof.
  unfold remote_user_of. intros Hskip Huser.
  destruct (remote_user_id kw) as [name|] eqn:Hname; [|done]. simpl in Huser.
  by apply (attempt_run p kw r w name).
Qed.

(** An attempt, by the events before the save. *)
Lemma attempt_outcome p kw r w remote_user :
  skipped p r w = false ->
  remote_user_of kw r = Some remote_user ->
  exists evs,
    saved evs = []
    /\ body p kw r w
       = match verdict p (answer (operation_of p) w remote_user (serialize r)).1 with
         | Ok (code, body_text) =>
             let r' := with_result r code body_text in
             (Ok r',
              mkWorld _ (save r' (db w))
                (answer (operation_of p) w remote_user (serialize r)).2
                (log w ++ evs ++ [EvSave r']))
         | Raise e =>
             (Raise e,
              mkWorld _ (db w)
                (answer (operation_of p) w remote_user (serialize r)).2
                (log w ++ evs))
         end.
Proof.
  intros Hskip Hu.
  pose proof (resolved_run p kw r w remote_user Hskip Hu) as Hrun.
  cbv zeta in Hrun. eexists. split; [|exact Hrun].
  rewrite !saved_app, (quiet_saved _ (quiet_before_call p kw r)),
    (quiet_saved _ (quiet_after_call p kw r _)). done.
Qed.

(** What one turn of any of the three loops does to the world. *)
Lemma body_summary p kw r w :
  exists res w' evs,
    body p kw r w = (res, w')
    /\ log w' = log w ++ evs
    /\ db w' = save_all (saved evs) (db w)
    /\ (saved evs = [] \/ exists code body_text,
                            saved evs = [with_result r code body_text])
    /\ (length (saved evs) <= length (client_calls evs))%nat
    /\ (length (client_calls evs) <= 1)%nat.
Proof.
  destruct (skipped p r w) eqn:Hskip.
  { destruct (skipped_run p kw r w Hskip) as (evs & Hrun & Hq).
    exists (Ok r), (noted w evs), evs.
    rewrite (quiet_saved evs Hq), (quiet_client_calls evs Hq).
    repeat split; try done; eauto. }
  destruct (remote_user_of kw r) as [remote_user|] eqn:Hu.
  - pose proof (resolved_run p kw r w remote_user Hskip Hu) as Hrun.
    cbv zeta in Hrun.
    set (outcome := (answer (operation_of p) w remote_user (serialize r)).1) in *.
    pose proof (quiet_before_call p kw r) as Hb.
    pose proof (quiet_after_call p kw r outcome) as Ha.
    destruct (verdict p outcome) as [[code body_text]|e]; eexists _, _, _;
      (split; [exact Hrun|]); (split; [reflexivity|]);
      rewrite ?saved_app, ?client_calls_app,
        (quiet_saved _ Hb), (quiet_saved _ Ha),
        (quiet_client_calls _ Hb), (quiet_client_calls _ Ha); simpl;
      repeat split; eauto.
  - destruct (unresolved_run p kw r w Hskip Hu) as [e Hrun].
    pose proof (quiet_before_call p kw r) as Hb.
    eexists _, _, _. split; [exact Hrun|]. split; [reflexivity|].
    rewrite ?saved_app, ?client_calls_app,
      (quiet_saved _ Hb), (quiet_client_calls _ Hb). simpl.
    repeat split; eauto.
Qed.

Lemma loop_summary p kw rs w :
  exists res w' evs,
    for_each (body p kw) rs w = (res, w')
    /\ log w' = log w ++ evs
    /\ db w' = save_all (saved evs) (db w)
    /\ Forall (result_of rs) (saved evs)
    /\ (length (saved evs) <= length (client_calls evs))%nat
    /\ (length (client_calls evs) <= length rs)%nat.
Proof.
  revert w. induction rs as [|r rs IH]; intros w.
  - exists (Ok []), w, []. simpl. rewrite app_nil_r. repeat split; try done.
  - destruct (body_summary p kw r w)
      as (res & w1 & evs & Hrun & Hlog & Hdb & Hsaved & Hle & Hone).
    assert (Hres : Forall (result_of (r :: rs)) (saved evs)).
    { destruct Hsaved as [->|(code & body_text & ->)]; [constructor|].
      repeat constructor. exists r, code, body_text. split; [|done]. set_solver. }
    rewrite for_each_cons, Hrun. destruct res as [r'|e].
    + destruct (IH w1) as (res' & w2 & evs' & Hrun' & Hlog' & Hdb' & Hall & Hle' & Hlen).
      rewrite Hrun'.
      exists (match res' with Ok ys => Ok (r' :: ys) | Raise e => Raise e end),
        w2, (evs ++ evs').
      split; [by destruct res'|].
      rewrite saved_app, client_calls_app, save_all_app, !length_app.
      rewrite Hlog', Hlog, Hdb', Hdb, <- app_assoc.
      repeat split; try done; [|lia|simpl; lia].
      apply Forall_app_2; [done|].
      eapply Forall_impl; [exact Hall|].
      intros row (r0 & code & body_text & Hin & ->).
      exists r0, code, body_text. split; [|done]. set_solver.
    + exists (Raise e), w1, evs. repeat split; try done. simpl. lia.
Qed.

Lemma method_summary p exporter kw w :
  exists res w' evs,
    method p exporter kw w = (res, w')
    /\ log w' = log w ++ evs
    /\ db w' = save_all (saved evs) (db w)
    /\ Forall (result_of (records p exporter kw w)) (saved evs)
    /\ (length (saved evs) <= length (client_calls evs))%nat
    /\ (length (client_calls evs) <= length (records p exporter kw w))%nat.
Proof.
  destruct (loop_summary p kw (records p exporter kw w) w)
    as (res & w' & evs & Hrun & Hrest).
  rewrite method_for_each, Hrun.
  exists (match res with Ok _ => Ok tt | Raise e => Raise e end), w', evs.
  split; [by destruct res|done].
Qed.

(** A run of [transmit] over records whose completed ones are all reported
    as sent. *)
Lemma transmit_over_reported_records kw rs w :
  Forall (fun r => course_completed r = true ->
                   reported_sent Completion r w = true) rs ->
  exists evs ys,
    for_each (transmit_record kw) rs w = (Ok ys, noted w evs) /\ quiet evs.
Proof.
  revert w. induction rs as [|r rs IH]; intros w Hall.
  - exists [], []. rewrite noted_nil. split; [done|constructor].
  - apply Forall_cons in Hall as [Hr Hall].
    destruct (transmit_record_passes_over kw r w Hr) as (evs & Hrun & Hq).
    destruct (IH (noted w evs)) as (evs' & ys & Hrest & Hq'); [done|].
    exists (evs ++ evs'), (r :: ys).
    rewrite for_each_cons, Hrun, Hrest, noted_noted.
    split; [done|]. by apply quiet_app.
Qed.

(** What a turn of [transmit] that saved no row with an error message leaves
    reported as sent. *)
Lemma transmit_record_marks kw r w r' w' evs :
  reports_saved_rows -> keeps_reporting ->
  transmit_record kw r w = (Ok r', w') ->
  log w' = log w ++ evs ->
  Forall (fun row => error_message row = "") (saved evs) ->
  (course_completed r = true -> reported_sent Completion r w' = true)
  /\ (forall r0,
        reported_sent Completion r0 w = true ->
        (enterprise_course_enrollment_id r = enterprise_course_enrollment_id r0 ->
         grade r = grade r0) ->
        reported_sent Completion r0 w' = true).
Proof.
  intros Hmark Hkeep Hrun Hlog Hclean.
  destruct (skipped Completion r w) eqn:Hskip.
  - destruct (skipped_run Completion kw r w Hskip) as (evs0 & Hrun0 & _).
    cbn [body] in Hrun0. rewrite Hrun0 in Hrun. injection Hrun as <- <-.
    split; [|done]. intros Hc. rewrite reported_sent_noted.
    simpl in Hskip. by rewrite Hc in Hskip.
  - destruct (remote_user_of kw r) as [remote_user|] eqn:Hu.
    + destruct (attempt_outcome Completion kw r w remote_user Hskip Hu)
        as (evs0 & Hsaved0 & Hrun0).
      cbn [body] in Hrun0. rewrite Hrun0 in Hrun.
      destruct (verdict _ _) as [[code body_text]|e]; [|done].
      injection Hrun as <- <-. cbn [log] in Hlog.
      apply app_inv_head in Hlog. subst evs.
      rewrite saved_app, Hsaved0 in Hclean.
      apply Forall_cons in Hclean as [Hclean _].
      unfold reported_sent. cbn [db]. split.
      * intros _. apply (Hmark (db w) (with_result r code body_text) Hclean).
      * intros r0 Hsent Hgrade.
        apply (Hkeep (db w) (with_result r code body_text)); [done|].
        cbn [enterprise_course_enrollment_id grade with_result].
        destruct (decide (enterprise_course_enrollment_id r
                          = enterprise_course_enrollment_id r0)) as [Heq|Hne].
        -- right. by apply Hgrade.
        -- by left.
    + destruct (unresolved_run Completion kw r w Hskip Hu) as [e Hrun0].
      cbn [body] in Hrun0. by rewrite Hrun0 in Hrun.
Qed.

(** What a run of [transmit] that returned, and saved no row with an error
    message, leaves reported as sent. *)
Lemma first_run_marks kw rs w ys w1 evs :
  reports_saved_rows -> keeps_reporting ->
  for_each (transmit_record kw) rs w = (Ok ys, w1) ->
  log w1 = log w ++ evs ->
  Forall (fun row => error_message row = "") (saved evs) ->
  (forall r0,
      reported_sent Completion r0 w = true ->
      (forall r, r ∈ rs ->
         enterprise_course_enrollment_id r = enterprise_course_enrollment_id r0 ->
         grade r = grade r0) ->
      reported_sent Completion r0 w1 = true)
  /\ (one_grade_per_enrollment rs ->
      forall r, r ∈ rs -> course_completed r = true ->
                reported_sent Completion r w1 = true).
Proof.
  intros Hmark Hkeep. revert w ys evs.
  induction rs as [|r rs IH]; intros w ys evs Hrun Hlog Hclean.
  - injection Hrun as <- <-. split; [done|]. intros _ r Hin. set_solver.
  - rewrite for_each_cons in Hrun.
    destruct (body_summary Completion kw r w)
      as (res & w' & ea & Hturn & Hloga & _).
    cbn [body] in Hturn. rewrite Hturn in Hrun.
    destruct res as [r'|e]; [|done].
    destruct (loop_summary Completion kw rs w')
      as (res' & w2 & eb & Hrest & Hlogb & _).
    cbn [body] in Hrest. rewrite Hrest in Hrun.
    destruct res' as [ys'|e]; [|done]. injection Hrun as <- <-.
    rewrite Hlogb, Hloga, <- app_assoc in Hlog. apply app_inv_head in Hlog.
    subst evs. rewrite saved_app in Hclean.
    apply Forall_app in Hclean as [Hca Hcb].
    destruct (transmit_record_marks kw r w r' w' ea Hmark Hkeep Hturn Hloga Hca)
      as [Hself Hothers].
    destruct (IH w' ys' eb Hrest Hlogb Hcb) as [Hkept Hrs].
    split.
    + intros r0 Hsent Hgrade. apply Hkept.
      * apply Hothers; [done|]. apply Hgrade. set_solver.
      * intros r1 Hin. apply Hgrade. set_solver.
    + intros Hone r0 Hin Hc. apply elem_of_cons in Hin as [->|Hin].
      * apply Hkept; [by apply Hself|].
        intros r1 Hin1 Heq. apply Hone; set_solver.
      * apply Hrs; [|done|done].
        intros r1 r2 Hin1 Hin2. apply Hone; set_solver.
Qed.

(** C1, as the code has it.  A record that [is_already_transmitted] reports
    as sent, by its enrollment id and grade, takes [transmit] to the next
    record with no client call and no save: the audit table and the client
    are as before.  Hence, when the dedup query reports the rows saved with
    an empty error message and keeps reporting them, a second run of
    [transmit] over the same records, each enrollment with one grade, after
    a first run that returned and saved no row with an error message makes
    no client call and saves nothing. *)
Theorem transmit_skips_what_was_transmitted payload kw w :
  (forall rest r rs,
      export payload kw (db w) = r :: rs ->
      (forall table, export rest kw table = rs) ->
      reported_sent Completion r w = true ->
      exists evs,
        transmit_record kw r w = (Ok r, noted w evs)
        /\ quiet evs
        /\ db (noted w evs) = db w /\ api (noted w evs) = api w
        /\ transmit payload kw w = transmit rest kw (noted w evs))
  /\ (forall w1 evs1,
      reports_saved_rows -> keeps_reporting ->
      one_grade_per_enrollment (export payload kw (db w)) ->
      transmit payload kw w = (Ok tt, w1) ->
      log w1 = log w ++ evs1 ->
      Forall (fun row => error_message row = "") (saved evs1) ->
      export payload kw (db w1) = export payload kw (db w) ->
      exists evs,
        transmit payload kw w1 = (Ok tt, noted w1 evs)
        /\ quiet evs
        /\ db (noted w1 evs) = db w1 /\ api (noted w1 evs) = api w1).
Proof.
  split.
  - intros rest r rs Hr Hrs Hsent.
    destruct (transmit_record_passes_over kw r w) as (evs & Hrun & Hq); [done|].
    exists evs. repeat split; try done.
    pose proof (method_cons Completion payload rest kw r rs w Hr) as Hturn.
    cbn [body method records] in Hturn. rewrite Hturn, Hrun; [done|].
    intros w'. apply Hrs.
  - intros w1 evs1 Hmark Hkeep Hone Hrun Hlog Hclean Hsame.
    change (transmit payload kw w) with (method Completion payload kw w) in Hrun.
    rewrite method_for_each in Hrun. cbn [body records] in Hrun.
    destruct (for_each (transmit_record kw) (export payload kw (db w)) w)
      as [[ys|e] w2] eqn:Hfirst; [|done].
    injection Hrun as <-.
    destruct (first_run_marks kw _ w ys w2 evs1 Hmark Hkeep Hfirst Hlog Hclean)
      as [_ Hsent].
    destruct (transmit_over_reported_records kw (export payload kw (db w)) w2)
      as (evs & ys' & Hsecond & Hq).
    { apply Forall_forall. intros r Hin Hc. by apply Hsent. }
    exists evs.
    change (transmit payload kw w2) with (method Completion payload kw w2).
    rewrite method_for_each. cbn [body records]. rewrite Hsame, Hsecond.
    by repeat split.
Qed.

(** C10. A record whose [course_completed] is false takes [transmit] to the
    next record: it is serialized and the skip is logged, the client is not
    called, the record is left as it was and is not saved. *)
Theorem transmit_passes_over_in_progress payload rest kw r rs w :
  course_completed r = false ->
  export payload kw (db w) = r :: rs ->
  (forall table, export rest kw table = rs) ->
  let evs := [EvSerialize r;
              EvLogInfo SkippingInProgress
                (lms_user_id_for_ent_course_enrollment_id
                   (enterprise_course_enrollment_id r)) r] in
  transmit_record kw r w = (Ok r, noted w evs)
  /\ quiet evs
  /\ db (noted w evs) = db w
  /\ api (noted w evs) = api w
  /\ transmit payload kw w = transmit rest kw (noted w evs).
Proof.
  intros Hc Hr Hrs evs.
  pose proof (in_progress_run kw r w Hc) as Hrun.
  repeat split; try done.
  - repeat constructor.
  - pose proof (method_cons Completion payload rest kw r rs w Hr) as Hturn.
    cbn [body method records] in Hturn. rewrite Hturn, Hrun; [done|].
    intros w'. apply Hrs.
Qed.

Lemma str_decimal code :
  Z.of_int <$> NilZero.int_of_string (str code) = Some code.
Proof.
  unfold str. rewrite NilZero.isi.
  - simpl. by rewrite DecimalZ.of_to.
  - destruct code; simpl; [done| |done].
    intros [= Hp]. by apply Unsigned.to_uint_nonnil in Hp.
  - destruct code; simpl; [done|done|].
    intros [= Hp]. by apply Unsigned.to_uint_nonnil in Hp.
Qed.

Lemma verdict_recorded p kw r w remote_user code body_text :
  skipped p r w = false ->
  remote_user_of kw r = Some remote_user ->
  verdict p (answer (operation_of p) w remote_user (serialize r)).1
  = Ok (code, body_text) ->
  recorded p kw r w code body_text.
Proof.
  intros Hskip Huser Hv.
  pose proof (resolved_run p kw r w remote_user Hskip Huser) as Hrun.
  simpl in Hrun. rewrite Hv in Hrun.
  eexists _, _, _. split; [exact Hrun|].
  repeat split; try done. simpl. apply str_decimal.
Qed.

(** C5, as the code has it.  An attempt that ends in a response or a
    [ClientError] leaves the record with [status] the decimal string of the
    code and [error_message] the body when the code is 400 or more, the empty
    string otherwise, and saves it; code and body are those of the response,
    or the [status_code] and [message] of the [ClientError], except that
    [transmit] turns a response of 400 or more into a [ClientError] of its
    own, whose message is the response body behind
    "Client create_course_completion failed: ". *)
Theorem attempt_records_status_and_error p kw r w remote_user :
  skipped p r w = false ->
  remote_user_of kw r = Some remote_user ->
  match (answer (operation_of p) w remote_user (serialize r)).1 with
  | Ok (code, body_text) =>
      recorded p kw r w code
        (match p with
         | Completion =>
             if (400 <=? code)%Z
             then ("Client create_course_completion failed: " ++ body_text)%string
             else body_text
         | _ => body_text
         end)
  | Raise (ClientError message status_code) =>
      recorded p kw r w status_code message
  | Raise _ => True
  end.
Proof.
  intros Hskip Huser.
  pose proof (fun code body_text =>
                verdict_recorded p kw r w remote_user code body_text Hskip Huser)
    as Hrec.
  destruct (answer (operation_of p) w remote_user (serialize r)).1
    as [[code body_text]|e]; simpl in Hrec.
  - apply Hrec. destruct p; try done. by destruct (400 <=? code)%Z.
  - destruct e; try done. by apply Hrec.
Qed.

(** C2, as the code has it.  When the client call of an attempt raises a
    [ClientError] the error is logged, the record is saved with the error's
    code and message, and the method goes on with the remaining records (so
    it does in [transmit] for a response of 400 or more, with the message
    [transmit] makes of the response body).  Any other exception is logged
    and raised again: the method ends with it, nothing is saved and the
    remaining records are not looked at. *)
Theorem client_error_continues_other_exception_ends_the_loop
    p exporter rest kw r rs w remote_user :
  records p exporter kw w = r :: rs ->
  (forall w', records p rest kw w' = rs) ->
  skipped p r w = false ->
  remote_user_of kw r = Some remote_user ->
  let op := operation_of p in
  let called := before_call p kw r ++ [EvClient op r remote_user (serialize r)] in
  let api' := (answer op w remote_user (serialize r)).2 in
  let continues message status_code :=
    let r' := with_result r status_code message in
    let w' := mkWorld _ (save r' (db w)) api'
                (log w ++ called
                 ++ [EvLogException (FailedToSend message status_code)
                       (learner_of p kw r) r;
                     EvSave r']) in
    body p kw r w = (Ok r', w')
    /\ method p exporter kw w = method p rest kw w' in
  match (answer op w remote_user (serialize r)).1 with
  | Raise (ClientError message status_code) => continues message status_code
  | Raise e =>
      method p exporter kw w
      = (Raise e,
         mkWorld _ (db w) api'
           (log w ++ called
            ++ [EvLogException (FailedWithException "create_assessment_reporting")
                  (learner_of p kw r) r]))
  | Ok (code, body_text) =>
      p = Completion -> (400 <= code)%Z ->
      continues ("Client create_course_completion failed: " ++ body_text)%string code
  end.
Proof.
  intros Hr Hrs Hskip Huser op called api' continues.
  pose proof (resolved_run p kw r w remote_user Hskip Huser) as Hrun.
  pose proof (method_cons p exporter rest kw r rs w Hr Hrs) as Hturn.
  cbv zeta in Hrun. fold op in Hrun. fold api' in Hrun.
  unfold continues, called.
  destruct (answer op w remote_user (serialize r)).1 as [[code body_text]|e].
  - intros -> Hcode. cbn [verdict after_call] in Hrun.
    destruct (Z.leb_spec 400 code); [|lia].
    rewrite <- ?app_assoc in Hrun. rewrite <- ?app_assoc. cbn [app] in *.
    rewrite Hrun in Hturn. by split.
  - destruct e; cbn [verdict after_call] in Hrun;
      rewrite <- ?app_assoc in Hrun; rewrite <- ?app_assoc; cbn [app] in *;
      rewrite Hrun in Hturn; try exact Hturn.
    by split.
Qed.

End Transmissions.

(** ** What the transmissions ask and the order they keep *)

Section Order.
Import LearnerTransmitter.
Context `{Channel}.

Lemma asked_app evs evs' : asked (evs ++ evs') = asked evs ++ asked evs'.
Proof. apply omap_app. Qed.

Lemma asked_after_call p kw r outcome : asked (after_call p kw r outcome) = [].
Proof.
  destruct outcome as [[code body_text]|e]; simpl.
  - destruct p; try done. by destruct (400 <=? code)%Z.
  - by destruct e.
Qed.

Lemma lookups_cons p r rs : lookups p (r :: rs) = lookups p [r] ++ lookups p rs.
Proof. destruct p; simpl; [by destruct (course_completed r)|done|done]. Qed.

(** What one turn of a loop asks the dedup query. *)
Lemma body_asked p kw r w :
  exists evs, log (body p kw r w).2 = log w ++ evs /\ asked evs = lookups p [r].
Proof.
  destruct (skipped p r w) eqn:Hskip.
  - destruct p; simpl in Hskip; [| |done].
    + destruct (course_completed r) eqn:Hc; simpl in Hskip.
      * cbn [body]. rewrite (completion_sent_run kw r w Hc Hskip).
        eexists. split; [reflexivity|]. simpl. by rewrite Hc.
      * cbn [body]. rewrite (in_progress_run kw r w Hc).
        eexists. split; [reflexivity|]. simpl. by rewrite Hc.
    + cbn [body]. rewrite (assessment_sent_run kw r w Hskip).
      eexists. split; [reflexivity|]. done.
  - assert (Hbefore : asked (before_call p kw r) = lookups p [r]).
    { destruct p; simpl in *; try done.
      apply orb_false_iff in Hskip as [Hc _]. apply negb_false_iff in Hc.
      by rewrite Hc. }
    destruct (remote_user_of kw r) as [remote_user|] eqn:Hu.
    + rewrite (resolved_run p kw r w remote_user Hskip Hu).
      destruct (verdict _ _) as [[code body_text]|e]; eexists;
        (split; [reflexivity|]);
        rewrite !asked_app, Hbefore, asked_after_call; simpl;
        by rewrite ?app_nil_r.
    + destruct (unresolved_run p kw r w Hskip Hu) as [e ->].
      eexists. split; [reflexivity|].
      rewrite asked_app, Hbefore. simpl. by rewrite app_nil_r.
Qed.

Lemma loop_asked p kw rs w :
  exists n evs,
    (n <= length rs)%nat
    /\ log (for_each (body p kw) rs w).2 = log w ++ evs
    /\ asked evs = lookups p (take n rs)
    /\ (forall ys, (for_each (body p kw) rs w).1 = Ok ys -> n = length rs).
Proof.
  revert w. induction rs as [|r rs IH]; intros w.
  - exists 0%nat, []. simpl. rewrite app_nil_r. repeat split; try done.
    by destruct p.
  - destruct (body_asked p kw r w) as (evs & Hlog & Hasked).
    rewrite for_each_cons.
    destruct (body p kw r w) as [[r'|e] w1]; simpl in Hlog.
    + destruct (IH w1) as (n & evs' & Hn & Hlog' & Hasked' & Hok).
      exists (S n), (evs ++ evs').
      rewrite firstn_cons, lookups_cons, asked_app, Hasked, Hasked'.
      destruct (for_each (body p kw) rs w1) as [[ys|e] w2];
        simpl in *; rewrite Hlog', Hlog, <- app_assoc;
        (split; [lia|]); (split; [done|]); (split; [done|]).
      * intros ? _. f_equal. by apply (Hok ys).
      * done.
    + exists 1%nat, evs. simpl. rewrite take_0.
      split; [lia|]. split; [done|]. split; [|done]. done.
Qed.

(** An attempt gets to the client, and asks nothing after the call. *)
Lemma attempt_call p kw r w remote_user :
  skipped p r w = false ->
  remote_user_of kw r = Some remote_user ->
  exists res w' evs,
    body p kw r w = (res, w')
    /\ log w' = log w ++ evs
    /\ EvClient (operation_of p) r remote_user (serialize r) ∈ evs
    /\ asked evs = asked (before_call p kw r).
Proof.
  intros Hskip Hu.
  pose proof (resolved_run p kw r w remote_user Hskip Hu) as Hrun.
  cbv zeta in Hrun.
  set (evs := before_call p kw r
              ++ [EvClient (operation_of p) r remote_user (serialize r)]
              ++ after_call p kw r
                   (answer (operation_of p) w remote_user (serialize r)).1) in *.
  assert (Hcall : EvClient (operation_of p) r remote_user (serialize r) ∈ evs).
  { unfold evs. apply elem_of_app. right. apply elem_of_cons. by left. }
  assert (Hasked : asked evs = asked (before_call p kw r)).
  { unfold evs. rewrite !asked_app, asked_after_call. cbn [asked omap].
    by rewrite app_nil_r. }
  destruct (verdict _ _) as [[code body_text]|e].
  - eexists _, _, (evs ++ [EvSave (with_result r code body_text)]).
    split; [exact Hrun|]. split; [done|]. split.
    + apply elem_of_app. by left.
    + rewrite asked_app, Hasked. cbn [asked omap]. by rewrite app_nil_r.
  - eexists _, _, evs. split; [exact Hrun|]. by split.
Qed.

(** C3, as the code has it.  [assessment_level_transmit] asks
    [is_already_transmitted] once for every record it gets to, [transmit]
    once for every such record whose course is completed, and both go on to
    the next record, without a client call or a save, when the record is
    reported as sent with the same grade.
    [single_learner_assessment_grade_transmit] never asks: it hands the
    keyword arguments and the audit model to the exporter, and calls the
    client for every record the exporter yields that names its remote user,
    reported as sent or not. *)
Theorem bulk_paths_deduplicate_single_learner_path_does_not p exporter kw w :
  (exists n evs,
      (n <= length (records p exporter kw w))%nat
      /\ log (method p exporter kw w).2 = log w ++ evs
      /\ asked evs = lookups p (take n (records p exporter kw w))
      /\ ((method p exporter kw w).1 = Ok tt ->
          n = length (records p exporter kw w)))
  /\ (forall rest r rs,
        p <> SingleLearnerAssessment ->
        records p exporter kw w = r :: rs ->
        (forall w', records p rest kw w' = rs) ->
        reported_sent p r w = true ->
        exists evs,
          quiet evs
          /\ method p exporter kw w = method p rest kw (noted w evs))
  /\ (forall rest r rs remote_user,
        single_assessment_level_export exporter kw (db w) = r :: rs ->
        (forall table, single_assessment_level_export rest kw table = rs) ->
        remote_user_of kw r = Some remote_user ->
        exists evs w',
          log w' = log w ++ evs
          /\ asked evs = []
          /\ EvClient create_assessment_reporting_op r remote_user (serialize r)
             ∈ evs
          /\ (single_learner_assessment_grade_transmit exporter kw w
              = single_learner_assessment_grade_transmit rest kw w'
              \/ exists e,
                   single_learner_assessment_grade_transmit exporter kw w
                   = (Raise e, w'))).
Proof.
  split; [|split].
  - destruct (loop_asked p kw (records p exporter kw w) w)
      as (n & evs & Hn & Hlog & Hasked & Hok).
    exists n, evs. rewrite method_for_each.
    destruct (for_each (body p kw) (records p exporter kw w) w) as [[ys|e] w'];
      simpl in *; repeat split; try done.
    intros _. by apply (Hok ys).
  - intros rest r rs Hp Hr Hrs Hsent.
    assert (Hskip : skipped p r w = true).
    { destruct p; simpl; [|done|done]. rewrite Hsent. apply orb_true_r. }
    destruct (skipped_run p kw r w Hskip) as (evs & Hrun & Hq).
    exists evs. split; [done|].
    by rewrite (method_cons p exporter rest kw r rs w Hr Hrs), Hrun.
  - intros rest r rs remote_user Hr Hrs Hu.
    pose proof (method_cons SingleLearnerAssessment exporter rest kw r rs w Hr)
      as Hturn.
    cbn [method body records] in Hturn. rewrite Hturn by (intros w'; apply Hrs).
    destruct (attempt_call SingleLearnerAssessment kw r w remote_user eq_refl Hu)
      as (res & w1 & evs & Hrun & Hlog & Hcall & Hasked).
    cbn [body] in Hrun. rewrite Hrun. exists evs, w1.
    split; [done|]. split; [done|]. split; [done|].
    destruct res as [r'|e]; [by left|right; by exists e].
Qed.

Lemma stages_app evs evs' : stages (evs ++ evs') = stages evs ++ stages evs'.
Proof. apply omap_app. Qed.

Lemma stages_before_call p kw r : stages (before_call p kw r) = [Serialized r].
Proof. by destruct p. Qed.

Lemma stages_after_call p kw r outcome : stages (after_call p kw r outcome) = [].
Proof.
  destruct outcome as [[code body_text]|e]; simpl.
  - destruct p; try done. by destruct (400 <=? code)%Z.
  - by destruct e.
Qed.

Lemma pass_through_weaken kw r w evs (cut cut' : Prop) :
  (cut -> cut') -> pass_through kw r w evs cut -> pass_through kw r w evs cut'.
Proof.
  unfold pass_through. intros Hcut.
  destruct (skipped Completion r w); [done|].
  destruct (remote_user_of kw r); naive_solver.
Qed.

(** The block of events of one turn of [transmit]. *)
Lemma transmit_record_block kw r w :
  exists evs,
    log (transmit_record kw r w).2 = log w ++ evs
    /\ db (transmit_record kw r w).2 = save_all (saved evs) (db w)
    /\ pass_through kw r w evs (exists e, (transmit_record kw r w).1 = Raise e).
Proof.
  unfold pass_through. destruct (skipped Completion r w) eqn:Hskip.
  - simpl in Hskip. destruct (course_completed r) eqn:Hc; simpl in Hskip.
    + rewrite (completion_sent_run kw r w Hc Hskip). eexists.
      split; [reflexivity|]. split; [done|]. split; [done|repeat constructor].
    + rewrite (in_progress_run kw r w Hc). eexists.
      split; [reflexivity|]. split; [done|]. split; [done|repeat constructor].
  - destruct (remote_user_of kw r) as [remote_user|] eqn:Hu.
    + pose proof (resolved_run Completion kw r w remote_user Hskip Hu) as Hrun.
      cbv zeta in Hrun. cbn [body operation_of] in Hrun. rewrite Hrun.
      pose proof (quiet_saved _ (quiet_before_call Completion kw r)) as Hb.
      destruct (verdict _ _) as [[code body_text]|e].
      * eexists (_ ++ [EvSave (with_result r code body_text)]).
        split; [reflexivity|].
        rewrite !saved_app, Hb, (quiet_saved _ (quiet_after_call _ _ _ _)).
        split; [done|]. split; [set_solver|]. left. exists code, body_text.
        by rewrite !stages_app, stages_before_call, stages_after_call.
      * eexists. split; [reflexivity|].
        rewrite !saved_app, Hb, (quiet_saved _ (quiet_after_call _ _ _ _)).
        split; [done|]. split; [set_solver|]. right. split; [by exists e|].
        by rewrite !stages_app, stages_before_call, stages_after_call.
    + destruct (unresolved_run Completion kw r w Hskip Hu) as [e Hrun].
      cbn [body] in Hrun. rewrite Hrun. eexists. split; [reflexivity|].
      rewrite saved_app, (quiet_saved _ (quiet_before_call Completion kw r)).
      split; [done|]. split; [by exists e|].
      by rewrite stages_app, stages_before_call.
Qed.

Lemma transmit_blocks kw rs w :
  exists n blocks,
    length blocks = n /\ (n <= length rs)%nat
    /\ log (for_each (transmit_record kw) rs w).2 = log w ++ concat blocks
    /\ (forall ys, (for_each (transmit_record kw) rs w).1 = Ok ys -> n = length rs)
    /\ forall i r evs,
         rs !! i = Some r -> blocks !! i = Some evs ->
         exists wi,
           db wi = save_all (saved (concat (take i blocks))) (db w)
           /\ log wi = log w ++ concat (take i blocks)
           /\ pass_through kw r wi evs
                (S i = n
                 /\ exists e, (for_each (transmit_record kw) rs w).1 = Raise e).
Proof.
  revert w. induction rs as [|r rs IH]; intros w.
  - exists 0%nat, []. simpl. rewrite app_nil_r. repeat split; try done.
  - destruct (transmit_record_block kw r w) as (evs & Hlog & Hdb & Hpass).
    rewrite for_each_cons.
    destruct (transmit_record kw r w) as [[r'|e] w1] eqn:Hturn;
      cbn [fst snd] in Hlog, Hdb, Hpass.
    + destruct (IH w1) as (n & blocks & Hlen & Hn & Hlog' & Hok & Hblocks).
      exists (S n), (evs :: blocks).
      split; [simpl; by rewrite Hlen|]. split; [simpl; lia|].
      split.
      { destruct (for_each (transmit_record kw) rs w1) as [[ys|e] w2];
          simpl in *; by rewrite Hlog', Hlog, <- app_assoc. }
      split.
      { destruct (for_each (transmit_record kw) rs w1) as [[ys|e] w2];
          simpl in *; [|done]. intros ? _. f_equal. by apply (Hok ys). }
      intros [|i] r0 evs0 Hr0 Hevs0; simpl in Hr0, Hevs0.
      * injection Hr0 as <-. injection Hevs0 as <-. exists w.
        simpl. rewrite app_nil_r. split; [done|]. split; [done|].
        eapply pass_through_weaken; [|exact Hpass]. by intros [e He].
      * destruct (Hblocks i r0 evs0 Hr0 Hevs0) as (wi & Hdbi & Hlogi & Hpi).
        exists wi. cbn [take concat]. rewrite saved_app, save_all_app.
        split; [by rewrite Hdbi, Hdb|].
        split; [by rewrite Hlogi, Hlog, <- app_assoc|].
        eapply pass_through_weaken; [|exact Hpi].
        intros [Hi [e He]]. split; [by rewrite Hi|].
        exists e. by destruct (for_each (transmit_record kw) rs w1) as [[ys|e'] w2];
          simpl in *; [|injection He as ->].
    + exists 1%nat, [evs]. simpl. rewrite app_nil_r.
      split; [done|]. split; [lia|]. split; [done|]. split; [done|].
      intros [|i] r0 evs0 Hr0 Hevs0; simpl in Hr0, Hevs0; [|done].
      injection Hr0 as <-. injection Hevs0 as <-. exists w.
      simpl. rewrite app_nil_r. split; [done|]. split; [done|].
      eapply pass_through_weaken; [|exact Hpass]. intros _. split; [done|].
      by exists e.
Qed.


End Order.

(** ** The statements at work *)

Section ClientsAtWork.
Import JwtLmsApiClient Scenario.
Local Open Scope Z_scope.

(** A fresh enrollment client connects before its first call and is then
    good for an hour. *)
Lemma refresh_token_reconnects_when_expired_witness :
  let st := enrollment_up in
  let st2 := @connected platform (fun user => ("jwt:" ++ user)%string)
               (@after_reading platform _ st) in
  @refresh_token platform _ get_self st = get_self st2
  /\ expires_at (self st2) = 1600000001 + 3600
  /\ (expires_at (self st2) <? 1600000001) = false.
Proof.
  intros st st2.
  destruct (@refresh_token_reconnects_when_expired platform _ get_self st)
    as [Hexpired _].
  destruct (Hexpired ltac:(vm_compute; reflexivity)) as [_ Hconnect].
  destruct (Hconnect _ eq_refl) as (_ & Hrun & _ & Hat & _ & Hfresh).
  split; [exact Hrun|]. split; [exact Hat|].
  apply Hfresh. vm_compute. discriminate.
Defined.



(** The alternating endpoint answers every run of refresh POSTs. *)
Lemma alternating_answers_refresh n via catalogs :
  @answers_refresh (@posts alternating n via catalogs).
Proof.
  revert n. induction catalogs as [|c rest IH]; intros n; [constructor|].
  simpl. apply Forall_cons. split; [|apply IH].
  simpl. destruct (Nat.even n); [|reflexivity].
  by rewrite lookup_singleton_eq.
Qed.

Lemma refresh_catalogs_partitions_distinct_uuids_witness :
  exists refreshed_catalogs failed_to_refresh_catalogs st',
    @EnterpriseCatalogApiClient.refresh_catalogs alternating
      [catalog_a; catalog_b] catalogs_client
    = (Ok (refreshed_catalogs, failed_to_refresh_catalogs), st')
    /\ forall u, ~ (u ∈ dom refreshed_catalogs /\ u ∈ failed_to_refresh_catalogs).
Proof.
  destruct (@refresh_catalogs_partitions_distinct_uuids alternating
              (fun user => ("jwt:" ++ user)%string)
              (mkRest "http://catalog/api/v1/" true (Some "jwt:worker"))
              [catalog_a; catalog_b] catalogs_client)
    as (refreshed & failed & st' & Hrun & _ & Hdistinct).
  - reflexivity.
  - intros _. vm_compute. reflexivity.
  - vm_compute. reflexivity.
  - apply alternating_answers_refresh.
  - exists refreshed, failed, st'. split; [exact Hrun|].
    apply Hdistinct. vm_compute. apply NoDup_cons. split.
    + rewrite not_elem_of_cons. split; [discriminate|apply not_elem_of_nil].
    + apply NoDup_singleton.
Defined.

(** C9 fails for a catalog that is given twice: its first refresh is started,
    its second times out, and its uuid is in both results. *)
Lemma refresh_catalogs_same_catalog_twice :
  (@EnterpriseCatalogApiClient.refresh_catalogs alternating
     [catalog_a; catalog_a] catalogs_client).1
  = Ok ({[ "7467c9d2" := FText "0" ]}, ["7467c9d2"])
  /\ "7467c9d2" ∈ dom ({[ "7467c9d2" := FText "0" ]} : gmap string field)
  /\ "7467c9d2" ∈ ["7467c9d2"].
Proof.
  split; [vm_compute; reflexivity|]. split; set_solver.
Qed.

End ClientsAtWork.

Section TransmitterAtWork.
Import LearnerTransmitter Channels.
Local Open Scope Z_scope.

(** The scripted channel keeps the contracts of the dedup query. *)
Lemma scripted_reports_a_clean_row table row :
  error_message row = "" ->
  @is_already_transmitted scripted (@save scripted row table)
    (enterprise_course_enrollment_id row) (grade row) None = true.
Proof.
  intros Herr. simpl. unfold last_sent_grade_matches.
  rewrite List.filter_app. simpl. unfold sent_for at 2.
  rewrite Z.eqb_refl, Herr. simpl. rewrite last_snoc.
  unfold same. destruct (grade row) as [g|]; [apply String.eqb_refl|done].
Qed.

Lemma scripted_ignores_a_failed_row table row enrollment_id grade subsection :
  error_message row <> "" ->
  @is_already_transmitted scripted (@save scripted row table) enrollment_id grade
    subsection
  = @is_already_transmitted scripted table enrollment_id grade subsection.
Proof.
  intros Herr. simpl. unfold last_sent_grade_matches.
  rewrite List.filter_app. simpl. unfold sent_for at 2.
  destruct (String.eqb_spec (error_message row) ""); [done|].
  rewrite andb_false_r. simpl. by rewrite app_nil_r.
Qed.

Lemma scripted_keeps_reporting : @keeps_reporting scripted.
Proof.
  intros table row enrollment_id grade_sent Hsent Hrow. simpl in *.
  unfold last_sent_grade_matches in *. rewrite List.filter_app. simpl.
  destruct (sent_for enrollment_id None row) eqn:Hfor.
  - rewrite last_snoc. destruct Hrow as [Hne | ->].
    + unfold sent_for in Hfor. apply andb_true_iff in Hfor as [Hfor _].
      apply andb_true_iff in Hfor as [Hfor _]. apply Z.eqb_eq in Hfor. done.
    + unfold same. destruct grade_sent as [g|]; [apply String.eqb_refl|done].
  - by rewrite app_nil_r.
Qed.

Lemma enrollments_have_one_grade :
  one_grade_per_enrollment enrollments.
Proof.
  intros r r' Hr Hr' Heq. unfold enrollments in *.
  repeat (apply elem_of_cons in Hr as [->|Hr]);
    try (by apply elem_of_nil in Hr);
    repeat (apply elem_of_cons in Hr' as [->|Hr']);
    try (by apply elem_of_nil in Hr');
    first [reflexivity | vm_compute in Heq; discriminate Heq].
Qed.

(** A second [transmit] of the same enrollments, after a first one that the
    partner accepted, calls nobody and saves nothing. *)
Lemma transmit_skips_what_was_transmitted_witness :
  exists evs,
    @transmit scripted (exporting enrollments) kw after_first_run
    = (Ok tt, noted after_first_run evs)
    /\ quiet evs.
Proof.
  destruct (@transmit_skips_what_was_transmitted scripted (exporting enrollments)
              kw (start [Ok (200, "ok"); Ok (201, "created")])) as [_ Hsecond].
  destruct (Hsecond after_first_run (log after_first_run))
    as (evs & Hrun & Hquiet & _).
  - exact scripted_reports_a_clean_row.
  - exact scripted_keeps_reporting.
  - exact enrollments_have_one_grade.
  - vm_compute. reflexivity.
  - reflexivity.
  - vm_compute. repeat constructor.
  - reflexivity.
  - exists evs. split; assumption.
Defined.

(** C1 fails after a first run that did not get through: the second run
    over the same record calls the client again, after a connection error
    that ended the first run as after a response of 500 that the first run
    recorded. *)
Lemma transmit_sends_again_after_a_failure :
  let payload := exporting [another] in
  let posted := [EvClient create_course_completion_op another "sap-0042"
                   (@serialize scripted another)] in
  let cut_short := @transmit scripted payload kw
                     (start [Raise ConnectionError; Ok (200, "ok")]) in
  let failed := @transmit scripted payload kw
                  (start [Ok (500, "busy"); Ok (200, "ok")]) in
  cut_short.1 = Raise ConnectionError
  /\ client_calls (log cut_short.2) = posted
  /\ client_calls (log (@transmit scripted payload kw cut_short.2).2)
     = posted ++ posted
  /\ failed.1 = Ok tt
  /\ client_calls (log failed.2) = posted
  /\ client_calls (log (@transmit scripted payload kw failed.2).2)
     = posted ++ posted.
Proof. vm_compute. repeat split; reflexivity. Qed.

Lemma transmit_passes_over_in_progress_witness :
  @transmit_record scripted kw in_progress (start [])
  = (Ok in_progress,
     noted (start [])
       [EvSerialize in_progress;
        EvLogInfo SkippingInProgress (Some 1012) in_progress])
  /\ @transmit scripted (exporting [in_progress; another]) kw (start [])
     = @transmit scripted (exporting [another]) kw
         (noted (start [])
            [EvSerialize in_progress;
             EvLogInfo SkippingInProgress (Some 1012) in_progress]).
Proof.
  destruct (@transmit_passes_over_in_progress scripted
              (exporting [in_progress; another]) (exporting [another]) kw
              in_progress [another] (start []))
    as (Hrecord & _ & _ & _ & Hnext).
  - reflexivity.
  - reflexivity.
  - intros table. reflexivity.
  - split; [exact Hrecord | exact Hnext].
Defined.

(** C2 fails when the client raises something else than a [ClientError]: the
    connection error of the first record ends [transmit], and the second
    record is never serialized nor posted (the answer scripted for it is
    still to come). *)
Lemma transmit_ends_on_a_connection_error :
  let run := @transmit scripted (exporting [by_course_key; another]) kw
               (start [Raise ConnectionError; Ok (200, "ok")]) in
  run.1 = Raise ConnectionError
  /\ stages (log run.2) = [Serialized by_course_key; Posted by_course_key]
  /\ db run.2 = []
  /\ api run.2 = [Ok (200, "ok")].
Proof. vm_compute. repeat split; reflexivity. Qed.

Lemma client_error_continues_other_exception_ends_the_loop_witness :
  let w := start [Raise (ClientError "Service Unavailable" 503); Ok (200, "ok")] in
  exists w',
    @transmit_record scripted kw by_course_key w
    = (Ok (with_result by_course_key 503 "Service Unavailable"), w')
    /\ db w' = [with_result by_course_key 503 "Service Unavailable"]
    /\ @transmit scripted (exporting [by_course_key; another]) kw w
       = @transmit scripted (exporting [another]) kw w'.
Proof.
  intros w.
  destruct (@client_error_continues_other_exception_ends_the_loop scripted
              Completion (exporting [by_course_key; another])
              (exporting [another]) kw by_course_key [another] w "sap-0042"
              eq_refl (fun _ => eq_refl) eq_refl eq_refl) as [Hrecord Hnext].
  eexists. split; [exact Hrecord|]. split; [reflexivity | exact Hnext].
Defined.

(** C3 fails on the single-learner path: a quiz grade that was never sent
    before is exported and posted, and [is_already_transmitted] is not
    asked about it. *)
Lemma single_learner_path_never_asks :
  let run := @single_learner_assessment_grade_transmit scripted
               (exporting [quiz]) kw (start [Ok (200, "ok")]) in
  run.1 = Ok tt
  /\ client_calls (log run.2)
     = [EvClient create_assessment_reporting_op quiz "sap-0042"
          (@serialize scripted quiz)]
  /\ asked (log run.2) = []
  /\ asked (log (@assessment_level_transmit scripted (exporting [quiz]) kw
                   (start [Ok (200, "ok")])).2)
     = [(11, Some "0.8", Some "subsection-1")].
Proof. vm_compute. repeat split; reflexivity. Qed.

(** The quiz grade went out and is reported as sent:
    [assessment_level_transmit] passes over it, and
    [single_learner_assessment_grade_transmit] posts it once more. *)
Lemma bulk_paths_deduplicate_single_learner_path_does_not_witness :
  (exists evs,
     quiet evs
     /\ @assessment_level_transmit scripted (exporting [quiz]) kw after_quiz
        = @assessment_level_transmit scripted (exporting []) kw
            (noted after_quiz evs))
  /\ (exists evs w',
        log w' = log after_quiz ++ evs
        /\ EvClient create_assessment_reporting_op quiz "sap-0042"
             (@serialize scripted quiz) ∈ evs
        /\ (@single_learner_assessment_grade_transmit scripted (exporting [quiz])
              kw after_quiz
            = @single_learner_assessment_grade_transmit scripted (exporting [])
                kw w'
            \/ exists e,
                 @single_learner_assessment_grade_transmit scripted
                   (exporting [quiz]) kw after_quiz = (Raise e, w'))).
Proof.
  split.
  - destruct (@bulk_paths_deduplicate_single_learner_path_does_not scripted
                AssessmentLevel (exporting [quiz]) kw after_quiz)
      as (_ & Hbulk & _).
    apply (Hbulk (exporting []) quiz []).
    + discriminate.
    + reflexivity.
    + intros w'. reflexivity.
    + vm_compute. reflexivity.
  - destruct (@bulk_paths_deduplicate_single_learner_path_does_not scripted
                SingleLearnerAssessment (exporting [quiz]) kw after_quiz)
      as (_ & _ & Hsingle).
    destruct (Hsingle (exporting []) quiz [] "sap-0042")
      as (evs & w' & Hlog & _ & Hcall & Hnext).
    + reflexivity.
    + intros table. reflexivity.
    + reflexivity.
    + exists evs, w'. split; [exact Hlog|]. split; [exact Hcall | exact Hnext].
Defined.

(** C5 fails in [transmit] for a response of 400 or more: the error message
    saved is not the response body. *)
Lemma transmit_prefixes_the_response_body :
  let run := @transmit_record scripted kw by_course_key
               (start [Ok (400, "Bad Request")]) in
  run.1 = Ok (with_result by_course_key 400
                "Client create_course_completion failed: Bad Request")
  /\ db run.2 = [with_result by_course_key 400
                   "Client create_course_completion failed: Bad Request"]
  /\ error_message
       (with_result by_course_key 400
          "Client create_course_completion failed: Bad Request")
     = "Client create_course_completion failed: Bad Request"
  /\ "Client create_course_completion failed: Bad Request" <> "Bad Request".
Proof. vm_compute. repeat split; (reflexivity || discriminate). Qed.

Lemma attempt_records_status_and_error_witness :
  recorded Completion kw by_course_key (start [Ok (400, "Bad Request")]) 400
    "Client create_course_completion failed: Bad Request"
  /\ recorded AssessmentLevel kw quiz (start [Ok (400, "Bad Request")]) 400
       "Bad Request".
Proof.
  split.
  - exact (@attempt_records_status_and_error scripted Completion kw by_course_key
             (start [Ok (400, "Bad Request")]) "sap-0042" eq_refl eq_refl).
  - exact (@attempt_records_status_and_error scripted AssessmentLevel kw quiz
             (start [Ok (400, "Bad Request")]) "sap-0042" eq_refl eq_refl).
Defined.


End TransmitterAtWork.

(** * Further properties *)

(** ** Computations that leave the state alone *)

Section Stateless.
Context {S : Type}.

Lemma stateless_ret {A} (a : A) : stateless (ret a : M S A).
Proof. by intros s. Qed.

Lemma stateless_raise {A} e : stateless (raise e : M S A).
Proof. by intros s. Qed.

Lemma stateless_bind {A B} (c : M S A) (k : A -> M S B) :
  stateless c -> (forall a, stateless (k a)) -> stateless (bind c k).
Proof.
  intros Hc Hk s. unfold bind. specialize (Hc s).
  destruct (c s) as [[a|e] s']; simpl in *; subst; [apply Hk|done].
Qed.

Lemma stateless_for_each {A B} (f : A -> M S B) xs :
  (forall x, stateless (f x)) -> stateless (for_each f xs).
Proof.
  intros Hf. induction xs as [|x xs IH]; simpl; [apply stateless_ret|].
  apply stateless_bind; [apply Hf|]. intros y.
  apply stateless_bind; [apply IH|]. intros ys. apply stateless_ret.
Qed.

Lemma stateless_keep_if {A} (p : A -> M S bool) xs :
  (forall x, stateless (p x)) -> stateless (keep_if p xs).
Proof.
  intros Hp. induction xs as [|x xs IH]; simpl; [apply stateless_ret|].
  apply stateless_bind; [apply Hp|]. intros b.
  apply stateless_bind; [apply IH|]. intros ys. apply stateless_ret.
Qed.

End Stateless.

Section MoreOfTheJwtClient.
Context `{Platform}.
Import JwtLmsApiClient.
Local Open Scope Z_scope.

Lemma stateless_item {C V} (d : gmap string V) key :
  stateless (item d key : M (state C) V).
Proof. intros s. unfold item. by destruct (d !! key). Qed.

Lemma ready_expired create (st : state t) :
  expires_at (self st) < time (ticks st) ->
  ready create st = connected create (after_reading st).
Proof.
  intros Hlt. unfold ready.
  destruct (Z.ltb_spec (expires_at (self st)) (time (ticks st))); [done|lia].
Qed.

Lemma ready_unexpired create (st : state t) :
  time (ticks st) <= expires_at (self st) ->
  ready create st = after_reading st.
Proof.
  intros Hle. unfold ready.
  destruct (Z.ltb_spec (expires_at (self st)) (time (ticks st))); [lia|done].
Qed.

(** X1. Outside Open edX (no JWT builder) [connect] raises
    [NotConnectedToOpenEdX] before it reads the clock or touches the
    instance, and a method wrapped by [refresh_token] on an expired token
    raises it without being run: after the one clock reading of
    [token_expired] the instance, the service and the trace are as before. *)
Theorem refresh_token_needs_the_jwt_builder {A} (func : M (state t) A)
    (st : state t) :
  JwtBuilder = None ->
  expires_at (self st) < time (ticks st) ->
  exists msg,
    (forall st0 : state t, connect st0 = (Raise (NotConnectedToOpenEdX msg), st0))
    /\ refresh_token func st = (Raise (NotConnectedToOpenEdX msg), after_reading st)
    /\ self (after_reading st) = self st
    /\ remote (after_reading st) = remote st
    /\ trace (after_reading st) = trace st.
Proof.
  intros Hnone Hexp. eexists. split; [|split; [|done]].
  - intros st0. unfold connect. rewrite Hnone. reflexivity.
  - rewrite refresh_token_run.
    destruct (Z.ltb_spec (expires_at (self st)) (time (ticks st))); [|lia].
    unfold bind, connect. rewrite Hnone. reflexivity.
Qed.

End MoreOfTheJwtClient.

(** ** More of the Enrollment API client *)

Section MoreOfTheEnrollmentClient.
Context `{Platform}.
Import JwtLmsApiClient.
Local Open Scope Z_scope.

(** What [get_course_modes] does with the details it fetched. *)
Local Abbreviation modes_of details :=
  (modes <~ EnrollmentApiClient.course_modes_of details ;;
   kept <~ keep_if
             (fun mode =>
                slug <~ item mode "slug" ;;
                ret (negb (contains slug EXCLUDED_COURSE_MODES)))
             modes ;;
   EnrollmentApiClient._sort_course_modes kept).

Local Abbreviation course_rq course_id := (GET ["course"; course_id]).

Local Abbreviation failed_details course_id e :=
  (EvLogException "Failed to retrieve course enrollment details for course"
     course_id e).

(** [get_course_details] once the decorator has left a REST client: the
    answer of the service, but for the three exceptions it absorbs. *)
Lemma get_course_details_via create course_id via outcome net (st : state t) :
  JwtBuilder = Some create ->
  client (self (ready create st)) = Some via ->
  send (remote st) via (course_rq course_id) = (outcome, net) ->
  EnrollmentApiClient.get_course_details course_id st
  = let asked := requested (ready create st) via (course_rq course_id) net in
    match outcome with
    | Ok details => (Ok details, asked)
    | Raise e =>
        if is_transport_error e
        then (Ok ∅, logged asked (failed_details course_id e))
        else (Raise e, asked)
    end.
Proof.
  intros Hjwt Hvia Hsend. rewrite <- (ready_remote create) in Hsend.
  unfold EnrollmentApiClient.get_course_details.
  rewrite (refresh_token_ready create) by done.
  unfold try_except, bind, get_self. rewrite Hvia. simpl.
  rewrite (http_run _ _ _ _ _ Hsend).
  destruct outcome as [details|e]; [done|]. by destruct (is_transport_error e).
Qed.

Lemma get_course_details_run create course_id outcome net (st : state t) :
  JwtBuilder = Some create ->
  client_or_expired st ->
  (forall via, send (remote st) via (course_rq course_id) = (outcome, net)) ->
  exists via,
    client (self (ready create st)) = Some via
    /\ EnrollmentApiClient.get_course_details course_id st
       = let asked := requested (ready create st) via (course_rq course_id) net in
         match outcome with
         | Ok details => (Ok details, asked)
         | Raise e =>
             if is_transport_error e
             then (Ok ∅, logged asked (failed_details course_id e))
             else (Raise e, asked)
         end.
Proof.
  intros Hjwt Hinv Hs.
  destruct (ready_has_client create st Hinv) as [via Hvia]. exists via.
  split; [done|]. by apply get_course_details_via.
Qed.


Lemma stateless_modes_of {C} details :
  stateless (modes_of details : M (state C) (list mode)).
Proof.
  apply stateless_bind.
  { intros s. unfold EnrollmentApiClient.course_modes_of.
    destruct (details !! "course_modes") as [[s0|ms]|]; try done.
    by destruct (String.eqb s0 ""). }
  intros modes. apply stateless_bind.
  { apply stateless_keep_if. intros m. apply stateless_bind.
    - apply stateless_item.
    - intros slug. apply stateless_ret. }
  intros kept. unfold EnrollmentApiClient._sort_course_modes.
  apply stateless_bind; [|intros; apply stateless_ret].
  apply stateless_for_each. intros m. apply stateless_bind.
  - unfold EnrollmentApiClient.slug_weight. apply stateless_bind.
    + apply stateless_item.
    + intros slug. destruct (contains slug COURSE_MODE_SORT_ORDER);
        [|apply stateless_ret].
      destruct (index slug COURSE_MODE_SORT_ORDER);
        [apply stateless_ret|apply stateless_raise].
  - intros w. apply stateless_ret.
Qed.

(** [get_course_modes] likewise. *)
Lemma get_course_modes_via create course_id via outcome net (st : state t) :
  JwtBuilder = Some create ->
  let st1 := ready create (ready create st) in
  client (self st1) = Some via ->
  send (remote st) via (course_rq course_id) = (outcome, net) ->
  EnrollmentApiClient.get_course_modes course_id st
  = let asked := requested st1 via (course_rq course_id) net in
    match outcome with
    | Ok details => modes_of details asked
    | Raise e =>
        if is_transport_error e
        then (Ok [], logged asked (failed_details course_id e))
        else (Raise e, asked)
    end.
Proof.
  intros Hjwt st1 Hvia Hsend.
  unfold EnrollmentApiClient.get_course_modes.
  rewrite (refresh_token_ready create) by done.
  unfold bind at 1.
  rewrite (get_course_details_via create course_id via outcome net); try done.
  2:{ by rewrite ready_remote. }
  fold st1. destruct outcome as [details|e]; [done|].
  by destruct (is_transport_error e).
Qed.

Lemma get_course_modes_run create course_id outcome net (st : state t) :
  JwtBuilder = Some create ->
  client_or_expired st ->
  (forall via, send (remote st) via (course_rq course_id) = (outcome, net)) ->
  let st1 := ready create (ready create st) in
  exists via,
    client (self st1) = Some via
    /\ EnrollmentApiClient.get_course_modes course_id st
       = let asked := requested st1 via (course_rq course_id) net in
         match outcome with
         | Ok details => modes_of details asked
         | Raise e =>
             if is_transport_error e
             then (Ok [], logged asked (failed_details course_id e))
             else (Raise e, asked)
         end.
Proof.
  intros Hjwt Hinv Hs st1.
  destruct (ready_has_client create (ready create st)) as [via Hvia].
  { by apply ready_client_or_expired. }
  exists via. split; [done|]. by apply get_course_modes_via.
Qed.

Lemma modes_of_listed {C} details modes (st : state C) :
  details !! "course_modes" = Some (FModes modes) ->
  Forall has_slug modes ->
  modes_of details st
  = (Ok (sorted_reverse ((fun m => (weight m, m))
                           <$> filter (fun m => offered m = true) modes)), st).
Proof.
  intros Hmodes Hall.
  assert (Hkept : Forall has_slug (filter (fun m => offered m = true) modes)).
  { rewrite Forall_forall in Hall. apply Forall_forall. intros m Hm.
    apply list_elem_of_filter in Hm as [_ Hm]. by apply Hall. }
  unfold bind at 1, EnrollmentApiClient.course_modes_of. rewrite Hmodes. simpl.
  unfold bind at 1. rewrite keep_offered_run by done.
  by rewrite sort_course_modes_run.
Qed.


Lemma keep_if_missing_slug {C} (before after : list mode) (m : mode)
    (st : state C) :
  Forall has_slug before ->
  m !! "slug" = None ->
  keep_if
    (fun mode =>
       slug <~ item mode "slug" ;;
       ret (negb (contains slug EXCLUDED_COURSE_MODES)))
    (before ++ m :: after) st
  = (Raise (KeyError "slug"), st).
Proof.
  intros Hall Hm. induction Hall as [|m' before [slug Hs] _ IH]; simpl.
  - unfold bind, item. by rewrite Hm.
  - unfold bind, item in *. rewrite Hs. simpl. by rewrite IH.
Qed.


(** X5. On a fresh or expired instance [get_course_modes], which is wrapped
    by [refresh_token] and calls the wrapped [get_course_details], creates
    one JWT and makes one request with it, reading the clock three times:
    the token the outer decorator fetched is still good when the inner one
    looks, provided the clock has not passed its expiry in between. *)
Theorem get_course_modes_connects_once create course_id (st : state t) :
  JwtBuilder = Some create ->
  expires_at (self st) < time (ticks st) ->
  time (S (S (ticks st))) <= time (S (ticks st)) + expires_in (self st) ->
  let me := self st in
  let via := mkRest (API_BASE_URL me) (APPEND_SLASH me) (Some (create (user me))) in
  let st' := (EnrollmentApiClient.get_course_modes course_id st).2 in
  exists logs,
    trace st' = trace st
                ++ [EvCreateJwt (user me) (time (S (ticks st)));
                    EvRequest via (course_rq course_id)]
                ++ logs
    /\ Forall (fun ev => is_logged_exception ev = true) logs
    /\ ticks st' = (3 + ticks st)%nat
    /\ client (self st') = Some via.
Proof.
  intros Hjwt Hexp Hgood me via st'.
  assert (Hready : ready create (ready create st)
                   = after_reading (connected create (after_reading st))).
  { rewrite (ready_expired create st Hexp). by apply ready_unexpired. }
  destruct (send (remote st) via (course_rq course_id)) as [outcome net] eqn:Hsend.
  pose proof (get_course_modes_via create course_id via outcome net st Hjwt) as Hrun.
  simpl in Hrun. rewrite Hready in Hrun. specialize (Hrun eq_refl Hsend).
  subst st'. rewrite Hrun. destruct outcome as [details|e].
  - rewrite stateless_modes_of. exists []. simpl.
    rewrite <- !app_assoc. by repeat split.
  - destruct (is_transport_error e).
    + eexists [_]. simpl. rewrite <- !app_assoc. repeat split; try done.
      by repeat constructor.
    + exists []. simpl. rewrite <- !app_assoc. by repeat split.
Qed.

Lemma sort_keyed_of_descending {A} (l : list (Z * A)) :
  descending l -> sort_keyed l = l.
Proof.
  induction 1 as [|[k x] l Hl IH Hall]; [done|]. simpl. rewrite IH.
  destruct l as [|[k' y] l']; [done|]. simpl.
  apply Forall_cons in Hall as [Hk _]. simpl in Hk.
  destruct (Z.ltb_spec k k'); [lia|done].
Qed.

(** X6. [_sort_course_modes] keeps the number of modes and is idempotent:
    sorting its own result changes nothing. *)
Theorem sort_course_modes_is_idempotent {C} (modes : list mode) (st : state C) :
  Forall has_slug modes ->
  exists out,
    EnrollmentApiClient._sort_course_modes modes st = (Ok out, st)
    /\ EnrollmentApiClient._sort_course_modes out st = (Ok out, st)
    /\ length out = length modes.
Proof.
  intros Hall.
  set (keyed := (fun m => (weight m, m)) <$> modes).
  exists (sorted_reverse keyed).
  assert (Hperm : sorted_reverse keyed ≡ₚ modes)
    by apply (sorted_reverse_spec weight modes).
  assert (Hkeys : (fun m => (weight m, m)) <$> sorted_reverse keyed
                  = sort_keyed keyed).
  { unfold sorted_reverse.
    assert (Hk : Forall (fun kx => kx.1 = weight kx.2) (sort_keyed keyed)).
    { rewrite (sort_keyed_Permutation keyed). apply Forall_fmap, Forall_forall. done. }
    induction Hk as [|[k m] l Hkm _ IH]; [done|].
    rewrite !fmap_cons, IH. simpl in Hkm. by subst k. }
  split; [by apply sort_course_modes_run|]. split.
  - rewrite sort_course_modes_run by (by rewrite Hperm).
    rewrite Hkeys. unfold sorted_reverse at 1.
    by rewrite (sort_keyed_of_descending _ (sort_keyed_descending keyed)).
  - by rewrite Hperm.
Qed.

Lemma truthy_has_slug (m : mode) : has_slug m -> truthy m = true.
Proof.
  intros [slug Hs]. unfold truthy.
  destruct (map_to_list m) as [|kv l] eqn:Hl; [|done].
  apply map_to_list_empty_iff in Hl. subst m. by rewrite lookup_empty in Hs.
Qed.

Lemma any_with_slug_run {C} wanted (modes : list mode) (st : state C) :
  Forall has_slug modes ->
  EnrollmentApi.any_with_slug wanted modes st
  = (Ok (existsb (fun m => String.eqb (slug_of m) wanted) modes), st).
Proof.
  induction 1 as [|m modes Hm _ IH]; simpl; [done|].
  rewrite (truthy_has_slug m Hm). destruct Hm as [slug Hs].
  unfold bind, item, slug_of. rewrite Hs. simpl. rewrite andb_true_r.
  destruct (String.eqb slug wanted); [done|]. exact IH.
Qed.



End MoreOfTheEnrollmentClient.

(** ** Enrollments, third-party identities and grades *)

Section RowsOfAnAnswer.

Lemma first_row_found key value before row after :
  no_row key value before ->
  row !! key = Some value ->
  first_row key value (before ++ row :: after) = Some row.
Proof.
  intros Hno Hrow. induction Hno as [|r before Hr _ IH]; simpl.
  - by rewrite Hrow, String.eqb_refl.
  - destruct (r !! key) as [v|] eqn:Hv; [|done].
    destruct (String.eqb_spec v value) as [->|]; [done|exact IH].
Qed.

Lemma first_row_none key value rows :
  no_row key value rows -> first_row key value rows = None.
Proof.
  induction 1 as [|r rows Hr _ IH]; simpl; [done|].
  destruct (r !! key) as [v|] eqn:Hv; [|done].
  destruct (String.eqb_spec v value) as [->|]; done.
Qed.

End RowsOfAnAnswer.

Section MoreLookups.
Context `{Platform}.
Import JwtLmsApiClient.

Local Abbreviation enrollment_rq username course_id :=
  (GET ["enrollment"; (username ++ "," ++ course_id)%string]).

Lemma underscore_of_the_username username course_id :
  starts_with_underscore username = false ->
  starts_with_underscore (username ++ "," ++ course_id) = false.
Proof.
  unfold starts_with_underscore.
  destruct username as [|c u]; [intros _; reflexivity|].
  intros Hu.
  destruct (String.prefix "_" (String c u ++ "," ++ course_id)) eqn:E; [|done].
  apply String.prefix_correct in E. cbn [String.length String.append] in E.
  assert (Hc : String.prefix "_" (String c u) = true).
  { apply String.prefix_correct. cbn [String.length].
    simpl in E |- *. injection E as ->. by destruct u. }
  congruence.
Qed.

Lemma get_course_enrollment_via create username course_id via outcome net
    (st : state t) :
  JwtBuilder = Some create ->
  client (self (ready create st)) = Some via ->
  send (remote st) via (enrollment_rq username course_id) = (outcome, net) ->
  EnrollmentApi.get_course_enrollment username course_id st
  = (match outcome with
     | Ok result => Ok (if truthy result then Some result else None)
     | Raise e => if is_HttpNotFoundError e then Ok None else Raise e
     end,
     requested (ready create st) via (enrollment_rq username course_id) net).
Proof.
  intros Hjwt Hvia Hsend. rewrite <- (ready_remote create) in Hsend.
  unfold EnrollmentApi.get_course_enrollment.
  rewrite (refresh_token_ready create) by done.
  assert (Hendpoint :
    (if starts_with_underscore username
     then EnrollmentApi._get_underscore_safe_endpoint (username ++ "," ++ course_id)
     else
       me <~ get_self ;;
       via <~ resource_of (client me) "enrollment" ;;
       path <~ EnrollmentApi.getattr_resource ["enrollment"]
                 (username ++ "," ++ course_id) ;;
       ret (via, path)) (ready create st)
    = (Ok (via, ["enrollment"; (username ++ "," ++ course_id)%string]),
       ready create st)).
  { destruct (starts_with_underscore username) eqn:Hu.
    - unfold EnrollmentApi._get_underscore_safe_endpoint, bind, get_self.
      by rewrite Hvia.
    - unfold bind, get_self, EnrollmentApi.getattr_resource. rewrite Hvia. simpl.
      by rewrite (underscore_of_the_username username course_id Hu). }
  unfold bind at 1. rewrite Hendpoint.
  unfold bind, try_except. simpl. rewrite (http_run _ _ _ _ _ Hsend).
  destruct outcome as [result|e]; simpl.
  - by destruct (truthy result).
  - by destruct (is_HttpNotFoundError e).
Qed.

(** X9. Whatever the username, one that starts with an underscore included,
    [get_course_enrollment] makes exactly one request, for the resource
    [enrollment/<username>,<course_id>]: slumber's refusal of attribute names
    that start with an underscore is never met. *)
Theorem get_course_enrollment_is_underscore_safe create username course_id
    (st : state t) :
  JwtBuilder = Some create ->
  client_or_expired st ->
  exists via st',
    client (self (ready create st)) = Some via
    /\ (EnrollmentApi.get_course_enrollment username course_id st).2 = st'
    /\ trace st' = trace (ready create st)
                   ++ [EvRequest via (enrollment_rq username course_id)]
    /\ (EnrollmentApi.get_course_enrollment username course_id st).1
       = match (send (remote st) via (enrollment_rq username course_id)).1 with
         | Ok result => Ok (if truthy result then Some result else None)
         | Raise e => if is_HttpNotFoundError e then Ok None else Raise e
         end.
Proof.
  intros Hjwt Hinv.
  destruct (ready_has_client create st Hinv) as [via Hvia].
  destruct (send (remote st) via (enrollment_rq username course_id))
    as [outcome net] eqn:Hsend.
  exists via. eexists. split; [done|].
  rewrite (get_course_enrollment_via create username course_id via outcome net)
    by done.
  rewrite Hsend. by repeat split.
Qed.


Local Abbreviation users_rq identity_provider param_name param_value :=
  (GET ["providers"; identity_provider; "users"; "?"; param_name; param_value]).

Lemma get_results_via identity_provider param_name param_value result_field_name
    via outcome net (st : state t) :
  client (self st) = Some via ->
  send (remote st) via (users_rq identity_provider param_name param_value)
  = (outcome, net) ->
  ThirdPartyAuthApiClient._get_results identity_provider param_name param_value
    result_field_name st
  = (match outcome with
     | Ok returned =>
         match default (FModes []) (returned !! "results") with
         | FModes rows =>
             Ok (row ← first_row param_name param_value rows;
                 row !! result_field_name)
         | FText s =>
             if String.eqb s "" then Ok None else Raise (AttributeError "get")
         end
     | Raise e => if is_HttpNotFoundError e then Ok None else Raise e
     end,
     requested st via (users_rq identity_provider param_name param_value) net).
Proof.
  intros Hvia Hsend.
  unfold ThirdPartyAuthApiClient._get_results, bind at 1, try_except, bind,
    get_self.
  rewrite Hvia. simpl. rewrite (http_run _ _ _ _ _ Hsend).
  destruct outcome as [returned|e]; simpl.
  - destruct (default (FModes []) (returned !! "results")) as [s|rows]; [|done].
    by destruct (String.eqb s "").
  - by destruct (is_HttpNotFoundError e).
Qed.




End MoreLookups.

Section Grades.
Context `{GradesApiClient.Listings}.
Import JwtLmsApiClient.


End Grades.

(** ** The embargo check *)

Section EmbargoCheck.
Import EmbargoApiClient.
Context `{Embargo}.

(** The course runs of [ids] are course keys [keys] that [api] does not
    block. *)
Local Abbreviation allowed api user ip_address url ids keys :=
  (Forall2 (fun id key =>
              CourseKey_from_string id = Some key
              /\ blocked (api key user ip_address url) = false) ids keys).

Lemma redirect_if_blocked_allowed api user ip_address url ids keys rest asked :
  embargo_api = Some api ->
  allowed api user ip_address url ids keys ->
  redirect_if_blocked (ids ++ rest) user ip_address url asked
  = redirect_if_blocked rest user ip_address url (asked ++ keys).
Proof.
  intros Hapi Hall. revert asked.
  induction Hall as [|id key ids keys [Hkey Hfree] _ IH]; intros asked.
  - by rewrite app_nil_r.
  - simpl. rewrite Hapi, Hkey. unfold bind, modify. rewrite Hfree.
    rewrite IH. by rewrite <- app_assoc.
Qed.

(** X15. [redirect_if_blocked] returns the redirect of the first course run
    the embargo API blocks: the runs before it were asked about in order,
    the runs after it are neither parsed nor asked about. *)
Theorem redirect_if_blocked_stops_at_the_first_block api user ip_address url
    ids keys id key rest asked :
  embargo_api = Some api ->
  allowed api user ip_address url ids keys ->
  CourseKey_from_string id = Some key ->
  blocked (api key user ip_address url) = true ->
  redirect_if_blocked (ids ++ id :: rest) user ip_address url asked
  = (Ok (api key user ip_address url), asked ++ keys ++ [key])
  /\ exists redirect_url,
       api key user ip_address url = Some redirect_url /\ redirect_url <> "".
Proof.
  intros Hapi Hall Hkey Hblocked. split.
  - rewrite (redirect_if_blocked_allowed api user ip_address url ids keys) by done.
    simpl. rewrite Hapi, Hkey. unfold bind, modify. rewrite Hblocked.
    by rewrite <- app_assoc.
  - unfold blocked in Hblocked.
    destruct (api key user ip_address url) as [redirect_url|]; [|done].
    exists redirect_url. split; [done|]. intros ->. done.
Qed.

(** X16. [redirect_if_blocked] returns [None] when no course run is blocked,
    an empty redirect counting as none, after asking about each run in
    order; for no course runs at all it returns [None] even without an
    embargo API. *)
Theorem redirect_if_blocked_without_a_block user ip_address url asked :
  redirect_if_blocked [] user ip_address url asked = (Ok None, asked)
  /\ forall api ids keys,
       embargo_api = Some api ->
       allowed api user ip_address url ids keys ->
       redirect_if_blocked ids user ip_address url asked = (Ok None, asked ++ keys).
Proof.
  split; [done|]. intros api ids keys Hapi Hall.
  rewrite <- (app_nil_r ids).
  by rewrite (redirect_if_blocked_allowed api user ip_address url ids keys).
Qed.

End EmbargoCheck.

(** ** More of the catalog client *)

Section MoreOfTheCatalogClient.
Context `{Platform}.
Import JwtLmsApiClient EnterpriseCatalogApiClient.

Local Abbreviation catalog_rq catalog_uuid :=
  (GET [ENTERPRISE_CATALOG_ENDPOINT; catalog_uuid]).

Local Abbreviation refresh_rq c := (POST [REFRESH_CATALOG_ENDPOINT (uuid c)]).



Lemma tally_failed outcomes (acc : gmap string field * list string) :
  (tally outcomes acc).2 = acc.2 ++ (List.filter raised outcomes).*1.
Proof.
  revert acc. induction outcomes as [|[u [task|e]] outcomes IH]; intros [m f];
    simpl.
  - by rewrite app_nil_r.
  - by rewrite IH.
  - rewrite IH. simpl. by rewrite <- app_assoc.
Qed.

Lemma refresh_loop_trace via catalogs acc (st : state t) :
  answers_refresh (posts (remote st) via catalogs) ->
  client (self st) = Some via ->
  let st' := (refresh_loop catalogs acc st).2 in
  requests (trace st')
  = requests (trace st) ++ ((fun c => (via, refresh_rq c)) <$> catalogs)
  /\ length (List.filter is_logged_exception (trace st'))
     = (length (List.filter is_logged_exception (trace st))
        + length (List.filter raised (posts (remote st) via catalogs)))%nat.
Proof.
  revert acc st.
  induction catalogs as [|c rest IH]; intros [m f] st Hsvc Hvia; simpl.
  - rewrite app_nil_r. split; [done|lia].
  - simpl in Hsvc.
    destruct (send (remote st) via (refresh_rq c)) as [r net'] eqn:Hsend.
    apply Forall_cons in Hsvc as [Hfirst Hsvc]. simpl in Hfirst.
    unfold bind at 1, refresh_one, get_self.
    cbv [bind ret try_except resource_of]. rewrite Hvia.
    rewrite (http_run _ _ _ _ _ Hsend).
    destruct r as [response|e].
    + unfold item. destruct (response !! "async_task_id") as [task|]; [|done].
      cbv [ret].
      match goal with
      | |- context [refresh_loop rest ?a ?s] =>
          destruct (IH a s Hsvc Hvia) as [-> ->]
      end.
      simpl. unfold requests. rewrite omap_app, List.filter_app. simpl.
      rewrite <- app_assoc, length_app. simpl. split; [done|lia].
    + rewrite Hfirst. cbv [emit modify].
      match goal with
      | |- context [refresh_loop rest ?a ?s] =>
          destruct (IH a s Hsvc Hvia) as [-> ->]
      end.
      simpl. unfold requests.
      rewrite !omap_app, !List.filter_app. simpl.
      rewrite <- !app_assoc, !length_app. simpl. split; [done|lia].
Qed.

(** X19. When every refresh POST of the run returns a task id or raises one
    of the exceptions the client catches, [refresh_catalogs] posts once per
    given catalog, in the order given and with one client, a catalog given
    twice being posted twice; it logs one exception per failed POST, and
    [failed_to_refresh_catalogs] lists the uuids of the failed POSTs in that
    order.  Given no catalog it makes no request and returns an empty
    dictionary and an empty list. *)
Theorem refresh_catalogs_posts_once_per_catalog create via catalogs
    (st : state t) :
  JwtBuilder = Some create ->
  client_or_expired st ->
  client (self (ready create st)) = Some via ->
  answers_refresh (posts (remote st) via catalogs) ->
  exists refreshed_catalogs failed_to_refresh_catalogs st',
    refresh_catalogs catalogs st
    = (Ok (refreshed_catalogs, failed_to_refresh_catalogs), st')
    /\ requests (trace st')
       = requests (trace (ready create st))
         ++ ((fun c => (via, refresh_rq c)) <$> catalogs)
    /\ failed_to_refresh_catalogs
       = (List.filter raised (posts (remote st) via catalogs)).*1
    /\ length (List.filter is_logged_exception (trace st'))
       = (length (List.filter is_logged_exception (trace (ready create st)))
          + length failed_to_refresh_catalogs)%nat
    /\ (catalogs = [] ->
        refreshed_catalogs = ∅ /\ failed_to_refresh_catalogs = []
        /\ trace st' = trace (ready create st)).
Proof.
  intros Hjwt Hinv Hvia Hsvc.
  rewrite <- (ready_remote create) in Hsvc.
  destruct (refresh_loop_run via catalogs (∅, []) (ready create st) Hsvc Hvia)
    as [st' Hrun].
  destruct (refresh_loop_trace via catalogs (∅, []) (ready create st) Hsvc Hvia)
    as [Hreq Hlog].
  rewrite Hrun in Hreq, Hlog. simpl in Hreq, Hlog.
  rewrite ready_remote in Hrun, Hlog.
  set (outcomes := posts (remote st) via catalogs) in *.
  exists (tally outcomes (∅, [])).1, (tally outcomes (∅, [])).2, st'.
  split.
  { unfold refresh_catalogs. rewrite (refresh_token_ready create) by done.
    rewrite Hrun. by destruct (tally outcomes (∅, [])). }
  split; [done|].
  pose proof (tally_failed outcomes (∅, [])) as Hfailed. simpl in Hfailed.
  split; [done|]. split.
  { rewrite Hlog, Hfailed. by rewrite length_fmap. }
  intros ->. simpl in *. injection Hrun as <-. done.
Qed.

End MoreOfTheCatalogClient.

(** ** More of the learner-data transmitter *)

Section MoreOfTheTransmitter.
Import LearnerTransmitter.
Context `{Channel}.

(** X20. Whatever a transmission method does, it only adds to the log, and
    the audit table it leaves is the table it found with the rows its log
    shows as saved, saved in that order; each such row is a record of the
    exporter with nothing but a status and an error message set on it. *)
Theorem transmission_changes_the_audit_table_by_saves_only p exporter kw w :
  exists evs,
    log (method p exporter kw w).2 = log w ++ evs
    /\ db (method p exporter kw w).2 = save_all (saved evs) (db w)
    /\ Forall (result_of (records p exporter kw w)) (saved evs).
Proof.
  destruct (method_summary p exporter kw w)
    as (res & w' & evs & -> & Hlog & Hdb & Hall & _).
  by exists evs.
Qed.

(** X21. A transmission method calls the client at most once per exported
    record, and saves no more rows than it made calls: nothing is retried,
    and nothing is saved that was not sent. *)
Theorem transmission_calls_at_most_once_per_record p exporter kw w :
  exists evs,
    log (method p exporter kw w).2 = log w ++ evs
    /\ (length (saved evs) <= length (client_calls evs))%nat
    /\ (length (client_calls evs) <= length (records p exporter kw w))%nat.
Proof.
  destruct (method_summary p exporter kw w)
    as (res & w' & evs & -> & Hlog & _ & _ & Hle & Hlen).
  by exists evs.
Qed.

(** X22. A run in which every record is passed over, the run over no records
    among them, returns without a client call or a save and leaves the audit
    table and the client as they were: for [assessment_level_transmit] this
    says that records all reported as sent are not sent again. *)
Theorem transmission_of_passed_over_records_is_quiet p exporter kw w :
  Forall (fun r => skipped p r w = true) (records p exporter kw w) ->
  exists evs,
    method p exporter kw w = (Ok tt, noted w evs)
    /\ quiet evs
    /\ db (noted w evs) = db w
    /\ api (noted w evs) = api w.
Proof.
  rewrite method_for_each. generalize (records p exporter kw w). intros rs Hall.
  cut (exists evs ys, for_each (body p kw) rs w = (Ok ys, noted w evs) /\ quiet evs).
  { intros (evs & ys & -> & Hq). by exists evs. }
  revert w Hall. induction rs as [|r rs IH]; intros w Hall.
  - exists [], []. rewrite noted_nil. split; [done|constructor].
  - apply Forall_cons in Hall as [Hr Hall].
    destruct (skipped_run p kw r w Hr) as (evs & Hrun & Hq).
    destruct (IH (noted w evs)) as (evs' & ys & Hrest & Hq').
    { eapply Forall_impl; [exact Hall|]. intros r'. by destruct p. }
    exists (evs ++ evs'), (r :: ys).
    rewrite for_each_cons, Hrun, Hrest, noted_noted.
    split; [done|]. by apply quiet_app.
Qed.

Ltac unfold_body :=
  cbv [body transmit_record assessment_level_transmit_record
       single_learner_assessment_grade_transmit_record
       bind ret raise try_except modify get emit do_serialize
       already_transmitted getattr call do_save record_and_save on_exception
       handle_transmission_error _log_exception_supplemental_data
       noted answer operation_of reported_sent skipped learner_of
       before_call after_call verdict];
  cbn [db api log].

Lemma unresolved_exception p kw r w :
  skipped p r w = false ->
  remote_user_of kw r = None ->
  body p kw r w
  = (Raise (match remote_user_id kw with
            | None => TypeError
            | Some name => AttributeError name
            end),
     noted w (before_call p kw r
              ++ [EvLogException (FailedWithException "create_assessment_reporting")
                    (learner_of p kw r) r])).
Proof.
  unfold remote_user_of. intros Hskip Hnone.
  destruct p; simpl in Hskip; unfold_body.
  - apply orb_false_iff in Hskip as [Hc Hs]. apply negb_false_iff in Hc.
    unfold reported_sent in Hs. rewrite Hc. simpl. rewrite Hs.
    destruct (remote_user_id kw) as [name|]; simpl in Hnone;
      [rewrite Hnone|]; cbn [db api log negb fst snd]; rewrite <- ?app_assoc;
      reflexivity.
  - unfold reported_sent in Hskip. rewrite Hskip.
    destruct (remote_user_id kw) as [name|]; simpl in Hnone;
      [rewrite Hnone|]; cbn [db api log negb fst snd]; rewrite <- ?app_assoc;
      reflexivity.
  - destruct (remote_user_id kw) as [name|]; simpl in Hnone;
      [rewrite Hnone|]; cbn [db api log negb fst snd]; rewrite <- ?app_assoc;
      reflexivity.
Qed.

(** X23. When the keyword arguments name no [remote_user_id], or the record
    has no attribute of that name, the first record that is not passed over
    ends the method with the [TypeError] or [AttributeError] of [getattr]:
    the failure is logged, the client is not called, nothing is saved and
    the remaining records are not looked at. *)
Theorem transmission_needs_the_remote_user p exporter kw r rs w :
  records p exporter kw w = r :: rs ->
  skipped p r w = false ->
  remote_user_of kw r = None ->
  exists evs,
    method p exporter kw w
    = (Raise (match remote_user_id kw with
              | None => TypeError
              | Some name => AttributeError name
              end),
       noted w evs)
    /\ quiet evs
    /\ EvLogException (FailedWithException "create_assessment_reporting")
         (learner_of p kw r) r ∈ evs
    /\ db (noted w evs) = db w
    /\ api (noted w evs) = api w.
Proof.
  intros Hr Hskip Hu.
  rewrite method_for_each, Hr, for_each_cons.
  rewrite (unresolved_exception p kw r w Hskip Hu).
  eexists. split; [reflexivity|]. repeat split.
  - apply quiet_app; [apply quiet_before_call|repeat constructor].
  - set_solver.
Qed.

(** X24. The comment above the loop of [transmit], first half: when the
    exporter yields an enrollment twice (by course key and by course run id)
    and the first transmission succeeds, the second is passed over.  This
    holds for every audit table on which a row saved without error is
    reported as sent for its enrollment and grade: the first record is
    posted and saved, the second only serialized, and [transmit] goes on
    with the records after them. *)
Theorem transmit_passes_over_the_second_export_after_a_success payload rest kw
    r1 r2 rs w remote_user code body_text :
  (forall table row,
      error_message row = "" ->
      is_already_transmitted (save row table)
        (enterprise_course_enrollment_id row) (grade row) None = true) ->
  export payload kw (db w) = r1 :: r2 :: rs ->
  (forall table, export rest kw table = rs) ->
  enterprise_course_enrollment_id r2 = enterprise_course_enrollment_id r1 ->
  grade r2 = grade r1 ->
  skipped Completion r1 w = false ->
  remote_user_of kw r1 = Some remote_user ->
  (answer create_course_completion_op w remote_user (serialize r1)).1
  = Ok (code, body_text) ->
  (code < 400)%Z ->
  exists w' evs,
    transmit payload kw w = transmit rest kw w'
    /\ log w' = log w ++ evs
    /\ stages evs = [Serialized r1; Posted r1;
                     Saved (with_result r1 code body_text); Serialized r2]
    /\ db w' = save (with_result r1 code body_text) (db w).
Proof.
  intros Hcontract Hexport Hrest Hid Hgrade Hskip Hu Hanswer Hcode.
  pose proof (resolved_run Completion kw r1 w remote_user Hskip Hu) as Hrun1.
  cbv zeta in Hrun1. cbn [operation_of body] in Hrun1. rewrite Hanswer in Hrun1.
  cbn [verdict after_call] in Hrun1.
  destruct (Z.leb_spec 400 code); [lia|].
  set (r1' := with_result r1 code body_text) in *.
  match type of Hrun1 with _ = (_, ?wx) => set (w1 := wx) in * end.
  assert (Hsent : course_completed r2 = true ->
                  reported_sent Completion r2 w1 = true).
  { intros _. unfold reported_sent. rewrite Hid, Hgrade. simpl.
    apply (Hcontract (db w) r1'). simpl.
    destruct (Z.leb_spec 400 code); [lia|done]. }
  destruct (transmit_record_passes_over kw r2 w1 Hsent) as (evs2 & Hrun2 & Hq).
  set (second := mkExporter _ (fun _ _ => r2 :: rs) [] (fun _ _ => [])).
  pose proof (method_cons Completion payload second kw
                r1 (r2 :: rs) w Hexport (fun _ => eq_refl)) as Hturn1.
  pose proof (method_cons Completion second rest kw
                r2 rs w1 eq_refl (fun w' => Hrest (db w'))) as Hturn2.
  cbn [body method] in Hturn1, Hturn2.
  rewrite Hrun1 in Hturn1. rewrite Hrun2 in Hturn2.
  assert (Hst : stages evs2 = [Serialized r2]).
  { destruct (course_completed r2) eqn:Hc.
    - rewrite (completion_sent_run kw r2 w1 Hc (Hsent eq_refl)) in Hrun2.
      apply (f_equal snd) in Hrun2. cbn [snd] in Hrun2.
      apply noted_inj in Hrun2. by rewrite <- Hrun2.
    - rewrite (in_progress_run kw r2 w1 Hc) in Hrun2.
      apply (f_equal snd) in Hrun2. cbn [snd] in Hrun2.
      apply noted_inj in Hrun2. by rewrite <- Hrun2. }
  exists (noted w1 evs2),
    ((before_call Completion kw r1
      ++ [EvClient create_course_completion_op r1 remote_user (serialize r1)]
      ++ [EvLogInfo SuccessfullySent (learner_of Completion kw r1) r1])
     ++ [EvSave r1'] ++ evs2).
  split; [by rewrite Hturn1|].
  split; [simpl; by rewrite <- !app_assoc|]. split; [|done].
  by rewrite !stages_app, (stages_before_call Completion), Hst.
Qed.

(** X25. The same comment, second half: when the first transmission of the
    enrollment fails with a response of 400 or more, the second export of it
    is attempted.  This holds for every audit table on which saving a row
    with an error message does not change what is reported as sent:
    [transmit] saves the first record with its error, then serializes and
    posts the second, saves it and goes on with the records after them, or
    ends with the exception of the second call. *)
Theorem transmit_attempts_the_second_export_after_a_failure payload rest kw
    r1 r2 rs w remote_user remote_user2 code body_text :
  (forall table row enrollment_id grade subsection,
      error_message row <> "" ->
      is_already_transmitted (save row table) enrollment_id grade subsection
      = is_already_transmitted table enrollment_id grade subsection) ->
  export payload kw (db w) = r1 :: r2 :: rs ->
  (forall table, export rest kw table = rs) ->
  enterprise_course_enrollment_id r2 = enterprise_course_enrollment_id r1 ->
  grade r2 = grade r1 ->
  course_completed r2 = true ->
  skipped Completion r1 w = false ->
  remote_user_of kw r1 = Some remote_user ->
  remote_user_of kw r2 = Some remote_user2 ->
  (answer create_course_completion_op w remote_user (serialize r1)).1
  = Ok (code, body_text) ->
  (400 <= code)%Z ->
  let r1' :=
    with_result r1 code
      ("Client create_course_completion failed: " ++ body_text)%string in
  exists w1 w2 evs,
    db w1 = save r1' (db w)
    /\ api w1 = (answer create_course_completion_op w remote_user (serialize r1)).2
    /\ error_message r1'
       = ("Client create_course_completion failed: " ++ body_text)%string
    /\ log w2 = log w ++ evs
    /\ EvClient create_course_completion_op r2 remote_user2 (serialize r2) ∈ evs
    /\ match verdict Completion
               (answer create_course_completion_op w1 remote_user2 (serialize r2)).1
       with
       | Ok (code2, body_text2) =>
           stages evs
           = [Serialized r1; Posted r1; Saved r1';
              Serialized r2; Posted r2; Saved (with_result r2 code2 body_text2)]
           /\ transmit payload kw w = transmit rest kw w2
       | Raise e =>
           stages evs
           = [Serialized r1; Posted r1; Saved r1'; Serialized r2; Posted r2]
           /\ transmit payload kw w = (Raise e, w2)
       end.
Proof.
  intros Hcontract Hexport Hrest Hid Hgrade Hc2 Hskip Hu Hu2 Hanswer Hcode r1'.
  pose proof (resolved_run Completion kw r1 w remote_user Hskip Hu) as Hrun1.
  cbv zeta in Hrun1. cbn [operation_of body] in Hrun1. rewrite Hanswer in Hrun1.
  cbn [verdict after_call] in Hrun1.
  destruct (Z.leb_spec 400 code); [|lia]. fold r1' in Hrun1.
  match type of Hrun1 with _ = (_, ?wx) => set (w1 := wx) in * end.
  assert (Herr : error_message r1'
                 = ("Client create_course_completion failed: " ++ body_text)%string).
  { unfold r1'. cbn [error_message with_result].
    destruct (Z.leb_spec 400 code); [done|lia]. }
  assert (Hskip2 : skipped Completion r2 w1 = false).
  { unfold skipped, reported_sent in *. rewrite Hc2. cbn [negb orb].
    change (db w1) with (save r1' (db w)).
    rewrite Hcontract by (rewrite Herr; done).
    rewrite Hid, Hgrade. by apply orb_false_iff in Hskip as [_ ->]. }
  pose proof (resolved_run Completion kw r2 w1 remote_user2 Hskip2 Hu2) as Hrun2.
  cbv zeta in Hrun2. cbn [operation_of body] in Hrun2.
  set (second := mkExporter _ (fun _ _ => r2 :: rs) [] (fun _ _ => [])).
  pose proof (method_cons Completion payload second kw
                r1 (r2 :: rs) w Hexport (fun _ => eq_refl)) as Hturn1.
  pose proof (method_cons Completion second rest kw
                r2 rs w1 eq_refl (fun w' => Hrest (db w'))) as Hturn2.
  cbn [body method] in Hturn1, Hturn2.
  rewrite Hrun1 in Hturn1. rewrite Hrun2 in Hturn2. rewrite Hturn1, Hturn2.
  clear Hturn1 Hturn2.
  set (evs1 := before_call Completion kw r1
               ++ [EvClient create_course_completion_op r1 remote_user (serialize r1)]
               ++ [EvLogException
                     (FailedToSend
                        ("Client create_course_completion failed: " ++ body_text)%string
                        code)
                     (learner_of Completion kw r1) r1]) in *.
  set (evs2 := before_call Completion kw r2
               ++ [EvClient create_course_completion_op r2 remote_user2 (serialize r2)]
               ++ after_call Completion kw r2
                    (answer create_course_completion_op w1 remote_user2
                       (serialize r2)).1) in *.
  assert (Hst1 : stages (evs1 ++ [EvSave r1']) = [Serialized r1; Posted r1; Saved r1']).
  { unfold evs1. by rewrite !stages_app, (stages_before_call Completion). }
  assert (Hst2 : stages evs2 = [Serialized r2; Posted r2]).
  { unfold evs2.
    by rewrite !stages_app, (stages_before_call Completion), stages_after_call. }
  assert (Hcall : EvClient create_course_completion_op r2 remote_user2 (serialize r2)
                  ∈ evs2).
  { unfold evs2. apply elem_of_app. right. apply elem_of_cons. by left. }
  exists w1.
  destruct (verdict Completion
              (answer create_course_completion_op w1 remote_user2 (serialize r2)).1)
    as [[code2 body_text2]|e].
  - match goal with
    | |- context [transmit rest kw ?wx = _] => exists wx
    end.
    exists ((evs1 ++ [EvSave r1']) ++ evs2
            ++ [EvSave (with_result r2 code2 body_text2)]).
    split; [done|]. split; [done|]. split; [done|].
    split; [unfold w1; cbn [log]; by rewrite <- !app_assoc|].
    split; [set_solver|]. split; [|done].
    by rewrite stages_app, Hst1, stages_app, Hst2.
  - match goal with
    | |- context [(Raise e, ?wx) = _] => exists wx
    end.
    exists ((evs1 ++ [EvSave r1']) ++ evs2).
    split; [done|]. split; [done|]. split; [done|].
    split; [unfold w1; cbn [log]; by rewrite <- !app_assoc|].
    split; [set_solver|]. split; [|done].
    by rewrite stages_app, Hst1, Hst2.
Qed.

End MoreOfTheTransmitter.

(** ** The further properties at work *)

Section MoreClientsAtWork.
Import JwtLmsApiClient Scenario MoreScenarios.
Local Open Scope Z_scope.

Local Abbreviation jwt_for := (fun user : string => ("jwt:" ++ user)%string).

Local Abbreviation demo := "course-v1:edX+DemoX+2020".

Lemma scripted_client_or_expired (me : t) (script : list (result response)) :
  expires_at me = 0 -> @client_or_expired platform (fresh me script).
Proof. intros Hat _. simpl. rewrite Hat. reflexivity. Qed.

Lemma refresh_token_needs_the_jwt_builder_witness :
  exists msg,
    @refresh_token standalone _ get_self outside
    = (Raise (NotConnectedToOpenEdX msg), @after_reading standalone _ outside).
Proof.
  destruct (@refresh_token_needs_the_jwt_builder standalone _ get_self outside)
    as (msg & _ & Hrun & _).
  - reflexivity.
  - vm_compute. reflexivity.
  - by exists msg.
Defined.




Lemma get_course_modes_connects_once_witness :
  exists logs,
    trace (@EnrollmentApiClient.get_course_modes platform demo enrollment_up).2
    = [EvCreateJwt "worker" 1600000001;
       EvRequest
         (mkRest "http://lms/api/enrollment/v1/" false (Some "jwt:worker"))
         (GET ["course"; demo])]
      ++ logs.
Proof.
  destruct (@get_course_modes_connects_once platform jwt_for demo enrollment_up)
    as (logs & Htrace & _).
  - reflexivity.
  - vm_compute. reflexivity.
  - vm_compute. discriminate.
  - exists logs. exact Htrace.
Defined.

Lemma sort_course_modes_is_idempotent_witness :
  exists out,
    @EnrollmentApiClient._sort_course_modes platform _ course_modes enrollment_up
    = (Ok out, enrollment_up)
    /\ @EnrollmentApiClient._sort_course_modes platform _ out enrollment_up
       = (Ok out, enrollment_up).
Proof.
  destruct (@sort_course_modes_is_idempotent platform _ course_modes enrollment_up)
    as (out & Hsort & Hagain & _).
  - repeat constructor; eexists; vm_compute; reflexivity.
  - by exists out.
Defined.



Lemma get_course_enrollment_is_underscore_safe_witness :
  exists via st',
    (@EnrollmentApi.get_course_enrollment platform "_jane" demo
       (enrollment_client [Ok enrollment_of_jane])).2 = st'
    /\ trace st'
       = trace (@ready platform jwt_for (enrollment_client [Ok enrollment_of_jane]))
         ++ [EvRequest via (GET ["enrollment"; ("_jane" ++ "," ++ demo)%string])].
Proof.
  destruct (@get_course_enrollment_is_underscore_safe platform jwt_for "_jane" demo
              (enrollment_client [Ok enrollment_of_jane]))
    as (via & st' & _ & Hrun & Htrace & _).
  - reflexivity.
  - by apply scripted_client_or_expired.
  - exists via, st'. split; [exact Hrun | exact Htrace].
Defined.






End MoreClientsAtWork.

Section EmbargoAndCatalogsAtWork.
Import JwtLmsApiClient Scenario MoreScenarios EmbargoApiClient.
Local Open Scope Z_scope.

Local Abbreviation jwt_for := (fun user : string => ("jwt:" ++ user)%string).

Lemma redirect_if_blocked_stops_at_the_first_block_witness :
  @redirect_if_blocked embargo course_runs None None None []
  = (Ok (Some "/embargo/blocked-message/enrollment/default/"),
     ["course-v1:edX+DemoX+2020"; "course-v1:edX+Cuba+2020"]).
Proof.
  destruct (@redirect_if_blocked_stops_at_the_first_block embargo
              (fun course_key _ _ _ =>
                 if String.eqb course_key "course-v1:edX+Cuba+2020"
                 then Some "/embargo/blocked-message/enrollment/default/"
                 else if String.eqb course_key "course-v1:edX+Iran+2020"
                 then Some "/embargo/blocked-message/enrollment/embargo/"
                 else None)
              None None None
              ["course-v1:edX+DemoX+2020"] ["course-v1:edX+DemoX+2020"]
              "course-v1:edX+Cuba+2020" "course-v1:edX+Cuba+2020"
              ["not a key"; "course-v1:edX+Iran+2020"] [])
    as [Hrun _].
  - reflexivity.
  - repeat constructor.
  - reflexivity.
  - reflexivity.
  - exact Hrun.
Defined.

Lemma redirect_if_blocked_without_a_block_witness :
  @redirect_if_blocked embargo
    ["course-v1:edX+DemoX+2020"; "course-v1:edX+Rocq+2021"] None None None []
  = (Ok None, ["course-v1:edX+DemoX+2020"; "course-v1:edX+Rocq+2021"]).
Proof.
  destruct (@redirect_if_blocked_without_a_block embargo None None None [])
    as [_ Hfree].
  apply (Hfree _ ["course-v1:edX+DemoX+2020"; "course-v1:edX+Rocq+2021"]
           ["course-v1:edX+DemoX+2020"; "course-v1:edX+Rocq+2021"] eq_refl).
  repeat constructor.
Defined.



Lemma refresh_catalogs_posts_once_per_catalog_witness :
  let via := mkRest "http://catalog/api/v1/" true (Some "jwt:worker") in
  exists st',
    (@EnterpriseCatalogApiClient.refresh_catalogs platform
       [catalog_a; catalog_a; catalog_b] catalog_mixed).2 = st'
    /\ requests (trace st')
       = [ (via, POST [EnterpriseCatalogApiClient.REFRESH_CATALOG_ENDPOINT "7467c9d2"]);
           (via, POST [EnterpriseCatalogApiClient.REFRESH_CATALOG_ENDPOINT "7467c9d2"]);
           (via, POST [EnterpriseCatalogApiClient.REFRESH_CATALOG_ENDPOINT "a2d6c1f0"]) ].
Proof.
  intros via.
  destruct (@refresh_catalogs_posts_once_per_catalog platform jwt_for via
              [catalog_a; catalog_a; catalog_b] catalog_mixed)
    as (refreshed & failed & st' & Hrun & Hreq & _).
  - reflexivity.
  - intros _. vm_compute. reflexivity.
  - vm_compute. reflexivity.
  - vm_compute. repeat constructor.
  - exists st'. split; [by rewrite Hrun|]. exact Hreq.
Defined.

End EmbargoAndCatalogsAtWork.

Section MoreOfTheTransmitterAtWork.
Import LearnerTransmitter Channels.
Local Open Scope Z_scope.

Lemma transmission_of_passed_over_records_is_quiet_witness :
  exists evs,
    @assessment_level_transmit scripted (exporting [quiz]) kw after_quiz
    = (Ok tt, noted after_quiz evs)
    /\ quiet evs.
Proof.
  destruct (@transmission_of_passed_over_records_is_quiet scripted AssessmentLevel
              (exporting [quiz]) kw after_quiz) as (evs & Hrun & Hq & _).
  - repeat constructor.
  - exists evs. split; [exact Hrun | exact Hq].
Defined.

Lemma transmission_needs_the_remote_user_witness :
  exists evs,
    @single_learner_assessment_grade_transmit scripted
      (exporting [quiz; quiz]) (mkKwargs None (Some 7)) (start [Ok (200, "ok")])
    = (Raise TypeError, noted (start [Ok (200, "ok")]) evs)
    /\ quiet evs.
Proof.
  destruct (@transmission_needs_the_remote_user scripted SingleLearnerAssessment
              (exporting [quiz; quiz]) (mkKwargs None (Some 7)) quiz [quiz]
              (start [Ok (200, "ok")])) as (evs & Hrun & Hq & _).
  - reflexivity.
  - reflexivity.
  - reflexivity.
  - exists evs. split; [exact Hrun | exact Hq].
Defined.

Lemma transmit_passes_over_the_second_export_after_a_success_witness :
  exists w' evs,
    @transmit scripted (exporting [by_course_key; by_course_run; another]) kw
      (start [Ok (200, "ok"); Ok (201, "created")])
    = @transmit scripted (exporting [another]) kw w'
    /\ stages evs = [Serialized by_course_key; Posted by_course_key;
                     Saved (with_result by_course_key 200 "ok");
                     Serialized by_course_run]
    /\ log w' = log (start [Ok (200, "ok"); Ok (201, "created")]) ++ evs.
Proof.
  destruct (@transmit_passes_over_the_second_export_after_a_success scripted
              (exporting [by_course_key; by_course_run; another])
              (exporting [another]) kw by_course_key by_course_run [another]
              (start [Ok (200, "ok"); Ok (201, "created")]) "sap-0042" 200 "ok")
    as (w' & evs & Hrun & Hlog & Hst & _).
  - exact scripted_reports_a_clean_row.
  - reflexivity.
  - intros table. reflexivity.
  - reflexivity.
  - reflexivity.
  - reflexivity.
  - reflexivity.
  - reflexivity.
  - reflexivity.
  - exists w', evs. split; [exact Hrun|]. split; [exact Hst | exact Hlog].
Defined.

Lemma transmit_attempts_the_second_export_after_a_failure_witness :
  exists w2 evs,
    @transmit scripted (exporting [by_course_key; by_course_run; another]) kw
      (start [Ok (404, "Not Found"); Ok (200, "ok"); Ok (201, "created")])
    = @transmit scripted (exporting [another]) kw w2
    /\ log w2 = evs
    /\ stages evs
       = [Serialized by_course_key; Posted by_course_key;
          Saved (with_result by_course_key 404
                   "Client create_course_completion failed: Not Found");
          Serialized by_course_run; Posted by_course_run;
          Saved (with_result by_course_run 200 "ok")].
Proof.
  destruct (@transmit_attempts_the_second_export_after_a_failure scripted
              (exporting [by_course_key; by_course_run; another])
              (exporting [another]) kw by_course_key by_course_run [another]
              (start [Ok (404, "Not Found"); Ok (200, "ok"); Ok (201, "created")])
              "sap-0042" "sap-0042" 404 "Not Found")
    as (w1 & w2 & evs & _ & Hapi & _ & Hlog & _ & Hnext).
  - exact scripted_ignores_a_failed_row.
  - reflexivity.
  - intros table. reflexivity.
  - reflexivity.
  - reflexivity.
  - reflexivity.
  - reflexivity.
  - reflexivity.
  - reflexivity.
  - reflexivity.
  - vm_compute. discriminate.
  - unfold answer in Hnext. rewrite Hapi in Hnext.
    destruct Hnext as [Hst Hrun].
    exists w2, evs. split; [exact Hrun|]. split; [exact Hlog | exact Hst].
Defined.

End MoreOfTheTransmitterAtWork.
